(** * Tile Brush Tool: grid snapping, orientation, placement ledger, undo log

    A shallow embedding of the placement core of the Blender add-on
    [tile_brush_tool] (modules [utils.py], [objects.py], [operator.py]) and
    the properties its specification states about it.

    Numbers.  Python floats are embedded as rationals [Q] and the arithmetic
    on them is exact; [round] is Python 3's round-half-to-even.  Equality of
    numbers is [Qeq] except where a value has been brought to lowest terms.

    Host.  [bpy] and [mathutils] belong to Blender.  The mesh datablocks the
    operator copies and removes are kept in an explicit store; the calls into
    [bpy.ops] are taken to succeed, so the [except] branches that only guard
    host failures are not entered.  What a datablock holds is recorded as the
    calls that built it (which template copies went in, where a
    [remove_doubles] ran); the geometry Blender makes of them is not
    computed.  The trigonometry behind [Euler.to_matrix] is a pair of section
    variables, and the ray that [view3d_utils] casts under the pointer comes
    with the context. *)

From Stdlib Require Import QArith Qround Qabs ZArith Lia Lqa.
From stdpp Require Import gmap list strings.

Local Open Scope Q_scope.

(** ** Python numerics *)

Module Py.

(** [round(x)] for a float [x]: the nearest integer, ties to the even one. *)
Definition round (x : Q) : Z :=
  let f := Qfloor x in
  match Qcompare (x - inject_Z f) (1 # 2) with
  | Lt => f
  | Gt => (f + 1)%Z
  | Eq => if Z.even f then f else (f + 1)%Z
  end.

(** [round(x, 6)]: the nearest multiple of 10^-6, in lowest terms. *)
Definition round6 (x : Q) : Q :=
  Qred (inject_Z (round (x * 1000000)) / 1000000).

(** [a % n] for integers with a positive [n]: the result is never negative. *)
Definition mod_ (a : Z) (n : nat) : nat := Z.to_nat (a mod Z.of_nat n).

End Py.

(** ** [mathutils.Vector], [mathutils.Euler], 3x3 matrices *)

Record Vector := vec { vx : Q; vy : Q; vz : Q }.

Definition vadd (a b : Vector) : Vector :=
  vec (vx a + vx b) (vy a + vy b) (vz a + vz b).
Definition vsub (a b : Vector) : Vector :=
  vec (vx a - vx b) (vy a - vy b) (vz a - vz b).
Definition vscale (a : Vector) (k : Q) : Vector :=
  vec (vx a * k) (vy a * k) (vz a * k).

(** Value equality of vectors, component by component. *)
Definition veq (a b : Vector) : Prop :=
  vx a == vx b /\ vy a == vy b /\ vz a == vz b.

Record Euler := euler { ex : Q; ey : Q; ez : Q }.

(** Row-major 3x3 matrix. *)
Record Matrix := mat { row0 : Vector; row1 : Vector; row2 : Vector }.

Definition transposed (m : Matrix) : Matrix :=
  mat (vec (vx (row0 m)) (vx (row1 m)) (vx (row2 m)))
      (vec (vy (row0 m)) (vy (row1 m)) (vy (row2 m)))
      (vec (vz (row0 m)) (vz (row1 m)) (vz (row2 m))).

Definition vdot (a b : Vector) : Q := vx a * vx b + vy a * vy b + vz a * vz b.

(** [m @ v] *)
Definition matvec (m : Matrix) (v : Vector) : Vector :=
  vec (vdot (row0 m) v) (vdot (row1 m) v) (vdot (row2 m) v).

(** ** [objects.py]: the tables *)

(** The double nearest to pi, as [math.pi] holds it. *)
Definition pi : Q := 884279719003555 # 281474976710656.

(** [math.radians(d)] *)
Definition radians (d : Q) : Q := d * (pi / 180).

Definition TILE_SIZES : list Q := [1 # 2; 1; 2; 4].

Inductive FaceName := Bottom | Top | Front | Back | Right | Left.

Definition CUBE_FACES : list (Euler * FaceName) :=
  [ (euler 0 0 0, Bottom);
    (euler (radians 180) 0 0, Top);
    (euler (radians 90) 0 0, Front);
    (euler (radians (-90)) 0 0, Back);
    (euler 0 (radians (-90)) 0, Right);
    (euler 0 (radians 90) 0, Left) ].

(** ** The operator's state *)

(** The placement key: face position and rotation rounded to six decimals,
    the size index and the inverted flag. *)
Definition PosKey : Type := Q * Q * Q * Q * Q * Q * nat * bool.

#[global] Instance Q_eq_dec : EqDecision Q.
Proof. solve_decision. Defined.

#[global] Program Instance Q_countable : Countable Q :=
  inj_countable' (fun q => (Qnum q, Qden q)) (fun p => Qmake (fst p) (snd p)) _.
Next Obligation. by intros []. Qed.

(** One call that wrote into a mesh datablock. [tile_copy] is a copy of the
    plane template of a size index ([plane_templates[i].data.copy()]), made
    for a tile object that was given this location and rotation;
    [remove_doubles] is [bpy.ops.mesh.remove_doubles(threshold=0.01)] run on
    the whole datablock. *)
Inductive MeshStep :=
  | tile_copy (tile : Vector * Euler * nat)
  | remove_doubles.

(** A mesh datablock, as the calls that built it, oldest first. The geometry
    is the host's: [bpy.ops.object.join] rewrites what it joins into the
    local space of the active object, and [remove_doubles] merges vertices
    that lie within its threshold, so the faces of a datablock and where they
    show in the scene cannot be read off this record. *)
Definition Mesh : Type := list MeshStep.

(** Name of a datablock in [bpy.data.meshes]. *)
Definition mesh_id : Type := nat.

(** A scene object as far as the operator reads it. *)
Record Object := object { location : Vector; rotation_euler : Euler }.

(** An object that shows a mesh: a placed tile, and the structure object
    [self.master_object], which is the tile object it started as. [data]
    names its mesh datablock, [placement] holds its [location] and
    [rotation_euler]. *)
Record Structure := structure { data : mesh_id; placement : Object }.

(** The attributes of [self] that [invoke] initialises, and the host's mesh
    store [bpy.data.meshes]. [cube_templates_inverted] is the number of
    inverted cube templates that were loaded; [last_mouse] holds
    [last_mouse_x] and [last_mouse_y], which do not exist before the first
    precision move of the pointer. *)
Record Session := session {
  preview : Object;
  base_location : Vector;
  master_object : option Structure;
  placed_tiles : gset PosKey;
  undo_history : list (option mesh_id);
  undo_positions : list (gset PosKey);
  movement_speed : Q;
  auto_mode : bool;
  previous_speed : Q;
  inverted_mode : bool;
  tile_size_index : nat;
  current_tile_size : Q;
  rotation_state : nat;
  last_placed_position : option (Vector * Euler * nat);
  cube_templates_inverted : nat;
  rotation_icon_areas : list (nat * (Z * Z * Z * Z));
  last_mouse : option (Z * Z);
  meshes : gmap mesh_id Mesh
}.

Definition set_preview (v : Object) (s : Session) : Session :=
  {| preview := v;
     base_location := base_location s;
     master_object := master_object s;
     placed_tiles := placed_tiles s;
     undo_history := undo_history s;
     undo_positions := undo_positions s;
     movement_speed := movement_speed s;
     auto_mode := auto_mode s;
     previous_speed := previous_speed s;
     inverted_mode := inverted_mode s;
     tile_size_index := tile_size_index s;
     current_tile_size := current_tile_size s;
     rotation_state := rotation_state s;
     last_placed_position := last_placed_position s;
     cube_templates_inverted := cube_templates_inverted s;
     rotation_icon_areas := rotation_icon_areas s;
     last_mouse := last_mouse s;
     meshes := meshes s |}.

Definition set_base_location (v : Vector) (s : Session) : Session :=
  {| preview := preview s;
     base_location := v;
     master_object := master_object s;
     placed_tiles := placed_tiles s;
     undo_history := undo_history s;
     undo_positions := undo_positions s;
     movement_speed := movement_speed s;
     auto_mode := auto_mode s;
     previous_speed := previous_speed s;
     inverted_mode := inverted_mode s;
     tile_size_index := tile_size_index s;
     current_tile_size := current_tile_size s;
     rotation_state := rotation_state s;
     last_placed_position := last_placed_position s;
     cube_templates_inverted := cube_templates_inverted s;
     rotation_icon_areas := rotation_icon_areas s;
     last_mouse := last_mouse s;
     meshes := meshes s |}.

Definition set_master_object (v : option Structure) (s : Session) : Session :=
  {| preview := preview s;
     base_location := base_location s;
     master_object := v;
     placed_tiles := placed_tiles s;
     undo_history := undo_history s;
     undo_positions := undo_positions s;
     movement_speed := movement_speed s;
     auto_mode := auto_mode s;
     previous_speed := previous_speed s;
     inverted_mode := inverted_mode s;
     tile_size_index := tile_size_index s;
     current_tile_size := current_tile_size s;
     rotation_state := rotation_state s;
     last_placed_position := last_placed_position s;
     cube_templates_inverted := cube_templates_inverted s;
     rotation_icon_areas := rotation_icon_areas s;
     last_mouse := last_mouse s;
     meshes := meshes s |}.

Definition set_placed_tiles (v : gset PosKey) (s : Session) : Session :=
  {| preview := preview s;
     base_location := base_location s;
     master_object := master_object s;
     placed_tiles := v;
     undo_history := undo_history s;
     undo_positions := undo_positions s;
     movement_speed := movement_speed s;
     auto_mode := auto_mode s;
     previous_speed := previous_speed s;
     inverted_mode := inverted_mode s;
     tile_size_index := tile_size_index s;
     current_tile_size := current_tile_size s;
     rotation_state := rotation_state s;
     last_placed_position := last_placed_position s;
     cube_templates_inverted := cube_templates_inverted s;
     rotation_icon_areas := rotation_icon_areas s;
     last_mouse := last_mouse s;
     meshes := meshes s |}.

Definition set_undo_history (v : list (option mesh_id)) (s : Session) : Session :=
  {| preview := preview s;
     base_location := base_location s;
     master_object := master_object s;
     placed_tiles := placed_tiles s;
     undo_history := v;
     undo_positions := undo_positions s;
     movement_speed := movement_speed s;
     auto_mode := auto_mode s;
     previous_speed := previous_speed s;
     inverted_mode := inverted_mode s;
     tile_size_index := tile_size_index s;
     current_tile_size := current_tile_size s;
     rotation_state := rotation_state s;
     last_placed_position := last_placed_position s;
     cube_templates_inverted := cube_templates_inverted s;
     rotation_icon_areas := rotation_icon_areas s;
     last_mouse := last_mouse s;
     meshes := meshes s |}.

Definition set_undo_positions (v : list (gset PosKey)) (s : Session) : Session :=
  {| preview := preview s;
     base_location := base_location s;
     master_object := master_object s;
     placed_tiles := placed_tiles s;
     undo_history := undo_history s;
     undo_positions := v;
     movement_speed := movement_speed s;
     auto_mode := auto_mode s;
     previous_speed := previous_speed s;
     inverted_mode := inverted_mode s;
     tile_size_index := tile_size_index s;
     current_tile_size := current_tile_size s;
     rotation_state := rotation_state s;
     last_placed_position := last_placed_position s;
     cube_templates_inverted := cube_templates_inverted s;
     rotation_icon_areas := rotation_icon_areas s;
     last_mouse := last_mouse s;
     meshes := meshes s |}.

Definition set_movement_speed (v : Q) (s : Session) : Session :=
  {| preview := preview s;
     base_location := base_location s;
     master_object := master_object s;
     placed_tiles := placed_tiles s;
     undo_history := undo_history s;
     undo_positions := undo_positions s;
     movement_speed := v;
     auto_mode := auto_mode s;
     previous_speed := previous_speed s;
     inverted_mode := inverted_mode s;
     tile_size_index := tile_size_index s;
     current_tile_size := current_tile_size s;
     rotation_state := rotation_state s;
     last_placed_position := last_placed_position s;
     cube_templates_inverted := cube_templates_inverted s;
     rotation_icon_areas := rotation_icon_areas s;
     last_mouse := last_mouse s;
     meshes := meshes s |}.

Definition set_auto_mode (v : bool) (s : Session) : Session :=
  {| preview := preview s;
     base_location := base_location s;
     master_object := master_object s;
     placed_tiles := placed_tiles s;
     undo_history := undo_history s;
     undo_positions := undo_positions s;
     movement_speed := movement_speed s;
     auto_mode := v;
     previous_speed := previous_speed s;
     inverted_mode := inverted_mode s;
     tile_size_index := tile_size_index s;
     current_tile_size := current_tile_size s;
     rotation_state := rotation_state s;
     last_placed_position := last_placed_position s;
     cube_templates_inverted := cube_templates_inverted s;
     rotation_icon_areas := rotation_icon_areas s;
     last_mouse := last_mouse s;
     meshes := meshes s |}.

Definition set_previous_speed (v : Q) (s : Session) : Session :=
  {| preview := preview s;
     base_location := base_location s;
     master_object := master_object s;
     placed_tiles := placed_tiles s;
     undo_history := undo_history s;
     undo_positions := undo_positions s;
     movement_speed := movement_speed s;
     auto_mode := auto_mode s;
     previous_speed := v;
     inverted_mode := inverted_mode s;
     tile_size_index := tile_size_index s;
     current_tile_size := current_tile_size s;
     rotation_state := rotation_state s;
     last_placed_position := last_placed_position s;
     cube_templates_inverted := cube_templates_inverted s;
     rotation_icon_areas := rotation_icon_areas s;
     last_mouse := last_mouse s;
     meshes := meshes s |}.

Definition set_inverted_mode (v : bool) (s : Session) : Session :=
  {| preview := preview s;
     base_location := base_location s;
     master_object := master_object s;
     placed_tiles := placed_tiles s;
     undo_history := undo_history s;
     undo_positions := undo_positions s;
     movement_speed := movement_speed s;
     auto_mode := auto_mode s;
     previous_speed := previous_speed s;
     inverted_mode := v;
     tile_size_index := tile_size_index s;
     current_tile_size := current_tile_size s;
     rotation_state := rotation_state s;
     last_placed_position := last_placed_position s;
     cube_templates_inverted := cube_templates_inverted s;
     rotation_icon_areas := rotation_icon_areas s;
     last_mouse := last_mouse s;
     meshes := meshes s |}.

Definition set_tile_size_index (v : nat) (s : Session) : Session :=
  {| preview := preview s;
     base_location := base_location s;
     master_object := master_object s;
     placed_tiles := placed_tiles s;
     undo_history := undo_history s;
     undo_positions := undo_positions s;
     movement_speed := movement_speed s;
     auto_mode := auto_mode s;
     previous_speed := previous_speed s;
     inverted_mode := inverted_mode s;
     tile_size_index := v;
     current_tile_size := current_tile_size s;
     rotation_state := rotation_state s;
     last_placed_position := last_placed_position s;
     cube_templates_inverted := cube_templates_inverted s;
     rotation_icon_areas := rotation_icon_areas s;
     last_mouse := last_mouse s;
     meshes := meshes s |}.

Definition set_current_tile_size (v : Q) (s : Session) : Session :=
  {| preview := preview s;
     base_location := base_location s;
     master_object := master_object s;
     placed_tiles := placed_tiles s;
     undo_history := undo_history s;
     undo_positions := undo_positions s;
     movement_speed := movement_speed s;
     auto_mode := auto_mode s;
     previous_speed := previous_speed s;
     inverted_mode := inverted_mode s;
     tile_size_index := tile_size_index s;
     current_tile_size := v;
     rotation_state := rotation_state s;
     last_placed_position := last_placed_position s;
     cube_templates_inverted := cube_templates_inverted s;
     rotation_icon_areas := rotation_icon_areas s;
     last_mouse := last_mouse s;
     meshes := meshes s |}.

Definition set_rotation_state (v : nat) (s : Session) : Session :=
  {| preview := preview s;
     base_location := base_location s;
     master_object := master_object s;
     placed_tiles := placed_tiles s;
     undo_history := undo_history s;
     undo_positions := undo_positions s;
     movement_speed := movement_speed s;
     auto_mode := auto_mode s;
     previous_speed := previous_speed s;
     inverted_mode := inverted_mode s;
     tile_size_index := tile_size_index s;
     current_tile_size := current_tile_size s;
     rotation_state := v;
     last_placed_position := last_placed_position s;
     cube_templates_inverted := cube_templates_inverted s;
     rotation_icon_areas := rotation_icon_areas s;
     last_mouse := last_mouse s;
     meshes := meshes s |}.

Definition set_last_placed_position (v : option (Vector * Euler * nat)) (s : Session) : Session :=
  {| preview := preview s;
     base_location := base_location s;
     master_object := master_object s;
     placed_tiles := placed_tiles s;
     undo_history := undo_history s;
     undo_positions := undo_positions s;
     movement_speed := movement_speed s;
     auto_mode := auto_mode s;
     previous_speed := previous_speed s;
     inverted_mode := inverted_mode s;
     tile_size_index := tile_size_index s;
     current_tile_size := current_tile_size s;
     rotation_state := rotation_state s;
     last_placed_position := v;
     cube_templates_inverted := cube_templates_inverted s;
     rotation_icon_areas := rotation_icon_areas s;
     last_mouse := last_mouse s;
     meshes := meshes s |}.

Definition set_cube_templates_inverted (v : nat) (s : Session) : Session :=
  {| preview := preview s;
     base_location := base_location s;
     master_object := master_object s;
     placed_tiles := placed_tiles s;
     undo_history := undo_history s;
     undo_positions := undo_positions s;
     movement_speed := movement_speed s;
     auto_mode := auto_mode s;
     previous_speed := previous_speed s;
     inverted_mode := inverted_mode s;
     tile_size_index := tile_size_index s;
     current_tile_size := current_tile_size s;
     rotation_state := rotation_state s;
     last_placed_position := last_placed_position s;
     cube_templates_inverted := v;
     rotation_icon_areas := rotation_icon_areas s;
     last_mouse := last_mouse s;
     meshes := meshes s |}.

Definition set_rotation_icon_areas (v : list (nat * (Z * Z * Z * Z))) (s : Session) : Session :=
  {| preview := preview s;
     base_location := base_location s;
     master_object := master_object s;
     placed_tiles := placed_tiles s;
     undo_history := undo_history s;
     undo_positions := undo_positions s;
     movement_speed := movement_speed s;
     auto_mode := auto_mode s;
     previous_speed := previous_speed s;
     inverted_mode := inverted_mode s;
     tile_size_index := tile_size_index s;
     current_tile_size := current_tile_size s;
     rotation_state := rotation_state s;
     last_placed_position := last_placed_position s;
     cube_templates_inverted := cube_templates_inverted s;
     rotation_icon_areas := v;
     last_mouse := last_mouse s;
     meshes := meshes s |}.

Definition set_meshes (v : gmap mesh_id Mesh) (s : Session) : Session :=
  {| preview := preview s;
     base_location := base_location s;
     master_object := master_object s;
     placed_tiles := placed_tiles s;
     undo_history := undo_history s;
     undo_positions := undo_positions s;
     movement_speed := movement_speed s;
     auto_mode := auto_mode s;
     previous_speed := previous_speed s;
     inverted_mode := inverted_mode s;
     tile_size_index := tile_size_index s;
     current_tile_size := current_tile_size s;
     rotation_state := rotation_state s;
     last_placed_position := last_placed_position s;
     cube_templates_inverted := cube_templates_inverted s;
     rotation_icon_areas := rotation_icon_areas s;
     last_mouse := last_mouse s;
     meshes := v |}.

Definition set_last_mouse (v : option (Z * Z)) (s : Session) : Session :=
  {| preview := preview s;
     base_location := base_location s;
     master_object := master_object s;
     placed_tiles := placed_tiles s;
     undo_history := undo_history s;
     undo_positions := undo_positions s;
     movement_speed := movement_speed s;
     auto_mode := auto_mode s;
     previous_speed := previous_speed s;
     inverted_mode := inverted_mode s;
     tile_size_index := tile_size_index s;
     current_tile_size := current_tile_size s;
     rotation_state := rotation_state s;
     last_placed_position := last_placed_position s;
     cube_templates_inverted := cube_templates_inverted s;
     rotation_icon_areas := rotation_icon_areas s;
     last_mouse := v;
     meshes := meshes s |}.

(** ** [utils.py]: grid snapping and view helpers *)

Definition Qlt_bool (a b : Q) : bool := negb (Qle_bool b a).

(** [round(c)] as a float again. *)
Definition rnd (c : Q) : Q := inject_Z (Py.round c).

Definition snap_to_grid (s : Session) (location : Vector) : Vector :=
  if Qeq_bool (movement_speed s) 1 then
    if Qeq_bool (current_tile_size s) (1 # 2) then
      vec (rnd (vx location * 4) / 4) (rnd (vy location * 4) / 4)
          (rnd (vz location * 4) / 4)
    else if Qeq_bool (current_tile_size s) 1 then
      vec (rnd (vx location * 4) / 4) (rnd (vy location * 4) / 4)
          (rnd (vz location * 4) / 4)
    else if Qeq_bool (current_tile_size s) 2 then
      vec (rnd (vx location * 2) / 2) (rnd (vy location * 2) / 2)
          (rnd (vz location * 2) / 2)
    else
      vec (rnd (vx location)) (rnd (vy location)) (rnd (vz location))
  else
    if Qeq_bool (current_tile_size s) (1 # 2) then
      vec (rnd (vx location * 4) / 4) (rnd (vy location * 4) / 4)
          (rnd (vz location * 4) / 4)
    else if Qeq_bool (current_tile_size s) 1 then
      vec (rnd (vx location - (1 # 2)) + (1 # 2))
          (rnd (vy location - (1 # 2)) + (1 # 2))
          (rnd (vz location - (1 # 2)) + (1 # 2))
    else if Qeq_bool (current_tile_size s) 2 then
      vec (rnd (vx location)) (rnd (vy location)) (rnd (vz location))
    else
      vec (rnd (vx location / 2) * 2) (rnd (vy location / 2) * 2)
          (rnd (vz location / 2) * 2).

Definition snap_to_grid_horizontal_only (s : Session) (location : Vector)
  : Vector :=
  if Qeq_bool (movement_speed s) 1 then
    if Qeq_bool (current_tile_size s) (1 # 2) then
      vec (rnd (vx location * 4) / 4) (rnd (vy location * 4) / 4) (vz location)
    else if Qeq_bool (current_tile_size s) 1 then
      vec (rnd (vx location * 4) / 4) (rnd (vy location * 4) / 4) (vz location)
    else if Qeq_bool (current_tile_size s) 2 then
      vec (rnd (vx location * 2) / 2) (rnd (vy location * 2) / 2) (vz location)
    else
      vec (rnd (vx location)) (rnd (vy location)) (vz location)
  else
    if Qeq_bool (current_tile_size s) (1 # 2) then
      vec (rnd (vx location * 4) / 4) (rnd (vy location * 4) / 4) (vz location)
    else if Qeq_bool (current_tile_size s) 1 then
      vec (rnd (vx location - (1 # 2)) + (1 # 2))
          (rnd (vy location - (1 # 2)) + (1 # 2)) (vz location)
    else if Qeq_bool (current_tile_size s) 2 then
      vec (rnd (vx location)) (rnd (vy location)) (vz location)
    else
      vec (rnd (vx location / 2) * 2) (rnd (vy location / 2) * 2) (vz location).

(** [context.region_data]: the 3D view, whose [view_matrix] is kept as its
    3x3 part; [None] for a [view_matrix] stands for camera data that makes the
    body of the [try] raise. *)
Record RegionView3D := region_view { view_matrix : option Matrix }.

(** [context.region], seen through what [view3d_utils] makes of it for the
    pointer position of the event at hand: the origin and the direction of
    the ray under the pointer. *)
Definition Ray : Type := Vector * Vector.

Record Context := context {
  region : option Ray;
  region_data : option RegionView3D
}.

(** The branch shared by the forward and the right direction: the larger
    horizontal component decides the axis, its sign the direction. *)
Definition single_axis (h : Vector) : Vector :=
  if Qlt_bool (Qabs (vy h)) (Qabs (vx h)) then
    vec (if Qlt_bool 0 (vx h) then 1 else -1) 0 0
  else
    vec 0 (if Qlt_bool 0 (vy h) then 1 else -1) 0.

Definition get_view_relative_vectors (ctx : Context) : Vector * Vector :=
  match region_data ctx with
  | None => (vec 0 1 0, vec 1 0 0)
  | Some region_3d =>
      match view_matrix region_3d with
      | None => (vec 0 1 0, vec 1 0 0)
      | Some view_matrix =>
          let view_rotation := transposed view_matrix in
          let forward_world := matvec view_rotation (vec 0 0 (-1)) in
          let right_world := matvec view_rotation (vec 1 0 0) in
          let forward_horizontal := vec (vx forward_world) (vy forward_world) 0 in
          let right_horizontal := vec (vx right_world) (vy right_world) 0 in
          (single_axis forward_horizontal, single_axis right_horizontal)
      end
  end.

(** ** [operator.py] *)

Section Operator.

(** The host's cosine and sine, as [Euler.to_matrix] calls them. *)
Variables cos sin : Q -> Q.

(** [Euler.to_matrix()] for the XYZ order the preview object uses. *)
Definition to_matrix (e : Euler) : Matrix :=
  let ci := cos (ex e) in let cj := cos (ey e) in let ch := cos (ez e) in
  let si := sin (ex e) in let sj := sin (ey e) in let sh := sin (ez e) in
  let cc := ci * ch in let cs := ci * sh in
  let sc := si * ch in let ss := si * sh in
  mat (vec (cj * ch) (sj * sc - cs) (sj * cc + ss))
      (vec (cj * sh) (sj * ss + cc) (sj * cs - sc))
      (vec (- sj) (cj * si) (cj * ci)).

Definition get_green_face_world_position (s : Session) : Vector :=
  let half_size := current_tile_size s / 2 in
  let local_face_offset := vec 0 0 (- half_size) in
  let rotation_matrix := to_matrix (rotation_euler (preview s)) in
  let rotated_offset := matvec rotation_matrix local_face_offset in
  vadd (location (preview s)) rotated_offset.

(** The tuple [pos_key] that placement and deletion both build. *)
Definition pos_key (s : Session) : PosKey :=
  let current_face_position := get_green_face_world_position s in
  (Py.round6 (vx current_face_position),
   Py.round6 (vy current_face_position),
   Py.round6 (vz current_face_position),
   Py.round6 (ex (rotation_euler (preview s))),
   Py.round6 (ey (rotation_euler (preview s))),
   Py.round6 (ez (rotation_euler (preview s))),
   tile_size_index s,
   inverted_mode s).

(** A name no datablock of the store carries yet. *)
Definition fresh_mesh (m : gmap mesh_id Mesh) : mesh_id := fresh (dom m).

(** [mesh.copy()]: a new datablock with the same content. A mesh that is no
    longer in the store copies as an empty one. *)
Definition mesh_copy (src : mesh_id) (s : Session) : mesh_id * Session :=
  let id := fresh_mesh (meshes s) in
  (id, set_meshes (<[id := default [] (meshes s !! src)]> (meshes s)) s).

(** [bpy.data.meshes.remove(mesh, do_unlink=True)] *)
Definition meshes_remove (id : mesh_id) (s : Session) : Session :=
  set_meshes (delete id (meshes s)) s.

Definition store_undo_snapshot (s : Session) : Session :=
  match master_object s with
  | None =>
      let s := set_undo_history (undo_history s ++ [None]) s in
      set_undo_positions (undo_positions s ++ [placed_tiles s]) s
  | Some master =>
      let '(mesh_copy, s) := mesh_copy (data master) s in
      let s := set_undo_history (undo_history s ++ [Some mesh_copy]) s in
      let s := set_undo_positions (undo_positions s ++ [placed_tiles s]) s in
      if (20 <? length (undo_history s))%nat then
        match undo_history s with
        | old_mesh :: rest =>
            let s := set_undo_history rest s in
            let s := match old_mesh with
                     | Some m => meshes_remove m s
                     | None => s
                     end in
            set_undo_positions (tail (undo_positions s)) s
        | [] => s
        end
      else s
  end.

Definition undo_placement (s : Session) : bool * Session :=
  match last (undo_history s) with
  | None => (false, s)
  | Some last_mesh =>
      let s := set_undo_history (removelast (undo_history s)) s in
      match last (undo_positions s) with
      | None => (false, s)
      | Some last_positions =>
          let s := set_undo_positions (removelast (undo_positions s)) s in
          match last_mesh with
          | None =>
              let s := set_master_object None s in
              let s := set_placed_tiles ∅ s in
              (true, set_last_placed_position None s)
          | Some last_mesh =>
              match master_object s with
              | Some master =>
                  let old_mesh := data master in
                  let s :=
                    set_master_object
                      (Some (structure last_mesh (placement master))) s in
                  let s := meshes_remove old_mesh s in
                  let s := set_placed_tiles last_positions s in
                  (true, set_last_placed_position None s)
              | None => (false, s)
              end
          end
      end
  end.

(** The plane a key stands for. *)
Definition tile_of_key (k : PosKey) : Vector * Euler * nat :=
  let '(pos_x, pos_y, pos_z, rot_x, rot_y, rot_z, size_index, _) := k in
  (vec pos_x pos_y pos_z, euler rot_x rot_y rot_z, size_index).

(** A copy of a plane template with a copy of its mesh, put at a location
    and rotation: a new tile object with a datablock of its own. *)
Definition new_tile_mesh (tile : Vector * Euler * nat) (s : Session)
  : Structure * Session :=
  let id := fresh_mesh (meshes s) in
  (structure id (object (fst (fst tile)) (snd (fst tile))),
   set_meshes (<[id := [tile_copy tile]]> (meshes s)) s).

(** The body of the loop that recreates the tiles: one more temporary
    object. *)
Definition recreate_tile (acc : list Structure * Session) (k : PosKey)
  : list Structure * Session :=
  let '(tile_obj, s) := new_tile_mesh (tile_of_key k) (snd acc) in
  (fst acc ++ [tile_obj], s).

(** [rebuild_structure_mesh]. The old structure object is removed (its
    datablock stays in the store), one tile object is made per key, the first
    becomes the structure, and with more than one the others are joined into
    it and [remove_doubles] runs. The keys are visited in the order of
    [elements]; Python visits its set in an order of its own. *)
Definition rebuild_structure_mesh (s : Session) : Session :=
  let s := set_master_object None s in
  let keys := elements (placed_tiles s) in
  let '(temp_objects, s) := foldl recreate_tile ([], s) keys in
  match temp_objects with
  | [] => s
  | first :: _ =>
      let s := set_master_object (Some first) s in
      if (1 <? length temp_objects)%nat
      then
        set_meshes
          (<[data first :=
               (tile_copy <$> (tile_of_key <$> keys)) ++ [remove_doubles]]>
             (meshes s)) s
      else s
  end.

Definition delete_tile_at_current_position (s : Session) : Session :=
  let pos_key := pos_key s in
  if decide (pos_key ∈ placed_tiles s) then
    let s := store_undo_snapshot s in
    let s := set_placed_tiles (placed_tiles s ∖ {[pos_key]}) s in
    let s := rebuild_structure_mesh s in
    set_last_placed_position None s
  else s.

Definition place_tile_at_current_position (s : Session) : bool * Session :=
  let current_face_position := get_green_face_world_position s in
  let pos_key := pos_key s in
  if decide (pos_key ∈ placed_tiles s) then (false, s)
  else
    let s := store_undo_snapshot s in
    let tile :=
      (current_face_position, rotation_euler (preview s), tile_size_index s) in
    let '(placed, s) := new_tile_mesh tile s in
    let s :=
      match master_object s with
      | None => set_master_object (Some placed) s
      | Some master =>
          set_meshes
            (<[data master :=
                 default [] (meshes s !! data master)
                 ++ [tile_copy tile; remove_doubles]]> (meshes s)) s
      end in
    let s := set_placed_tiles ({[pos_key]} ∪ placed_tiles s) s in
    let current_state :=
      (current_face_position, rotation_euler (preview s), tile_size_index s) in
    (true, set_last_placed_position (Some current_state) s).

Definition change_tile_size (direction : Z) (s : Session) : Session :=
  let old_index := tile_size_index s in
  let new_index :=
    if (0 <? direction)%Z
    then Py.mod_ (Z.of_nat (tile_size_index s) + 1) (length TILE_SIZES)
    else Py.mod_ (Z.of_nat (tile_size_index s) - 1) (length TILE_SIZES) in
  if (new_index =? old_index)%nat then s
  else
    let old_rotation := rotation_euler (preview s) in
    let old_location := location (preview s) in
    let current_green_face_position := get_green_face_world_position s in
    let preserve_height := vz current_green_face_position in
    let s := set_tile_size_index new_index s in
    let s := set_current_tile_size (nth new_index TILE_SIZES 0) s in
    let new_half_size := current_tile_size s / 2 in
    let new_cube_center_z := preserve_height + new_half_size in
    let snapped_base :=
      if Qeq_bool (movement_speed s) 1 then
        vec (rnd (vx old_location * 2) / 2) (rnd (vy old_location * 2) / 2)
            new_cube_center_z
      else
        vec (vx old_location) (vy old_location) new_cube_center_z in
    let s := set_base_location snapped_base s in
    let s := set_preview (object (base_location s) old_rotation) s in
    set_last_placed_position None s.

(** *** [modal]: the keyboard, pointer, click and wheel events *)

(** [event.type]. The letter keys carry the prefix [K_]; [OTHER_KEY] is any
    type the operator does not handle. *)
Inductive EventType :=
  | LEFTMOUSE | RIGHTMOUSE | MOUSEMOVE | WHEELUPMOUSE | WHEELDOWNMOUSE
  | K_W | K_S | K_A | K_D | UP_ARROW | DOWN_ARROW | LEFT_ARROW | RIGHT_ARROW
  | K_Q | K_E | PAGE_UP | PAGE_DOWN | TAB | K_T | K_C | K_Z | K_V | K_X | K_I
  | K_R | SPACE | ESC
  | ONE | TWO | THREE | FOUR | FIVE | SIX
  | NUMPAD_1 | NUMPAD_2 | NUMPAD_3 | NUMPAD_4 | NUMPAD_5 | NUMPAD_6
  | OTHER_KEY.

Inductive EventValue := PRESS | RELEASE.

Record Event := event {
  type : EventType;
  value : EventValue;
  shift : bool;
  ctrl : bool;
  mouse_region_x : Z;
  mouse_region_y : Z
}.

(** What a call of [modal] ends with: one of the result sets it returns, or
    the [NameError] that leaves it when [cleanup_tool] reaches a name that
    [operator.py] does not import. *)
Inductive ModalResult := RUNNING_MODAL | CANCELLED | PASS_THROUGH | NAME_ERROR.

(** [CUBE_FACES[i][0]] *)
Definition face_rotation (i : nat) : Euler :=
  fst (nth i CUBE_FACES (euler 0 0 0, Bottom)).

(** The three lines every preset change runs: take the preset's rotation,
    put the preview back on its base location, drop the placement lock. *)
Definition apply_preset (face_index : nat) (s : Session) : Session :=
  let s := set_rotation_state face_index s in
  let rotation := face_rotation (rotation_state s) in
  let s := set_preview (object (base_location s) rotation) s in
  set_last_placed_position None s.

(** The step of a key move. *)
Definition step_of (precision_mode : bool) (s : Session) : Q :=
  if precision_mode then 1 # 10
  else if Qeq_bool (movement_speed s) 1 then 1 # 2
  else current_tile_size s.

(** The snapping a key move ends with, the same for both directions. *)
Definition snap_move (precision_mode : bool) (s : Session) (loc : Vector)
  : Vector :=
  if precision_mode then loc
  else if Qeq_bool (movement_speed s) 1 then
    vec (rnd (vx loc * 2) / 2) (rnd (vy loc * 2) / 2) (vz loc)
  else loc.

Definition finish_move (precision_mode : bool) (loc : Vector) (s : Session)
  : Session :=
  let snapped_loc := snap_move precision_mode s loc in
  let s := set_preview (object snapped_loc (rotation_euler (preview s))) s in
  let s := set_base_location snapped_loc s in
  let s := set_last_placed_position None s in
  if auto_mode s then snd (place_tile_at_current_position s) else s.

Definition icon_hit (e : Event) (area : nat * (Z * Z * Z * Z)) : bool :=
  let '(_, (x, y, width, height)) := area in
  ((x <=? mouse_region_x e) && (mouse_region_x e <=? x + width)
   && (y <=? mouse_region_y e) && (mouse_region_y e <=? y + height))%Z.

Definition in_place (loc : Vector) (z : Q) : Vector := vec (vx loc) (vy loc) z.

(** The squared length of a vector; [v.length > 0.1] is read as
    [sqlength v > 0.01]. *)
Definition sqlength (v : Vector) : Q := vdot v v.

Definition update_preview_from_mouse (ctx : Context) (e : Event) (s : Session)
  : Session :=
  match region ctx, region_data ctx with
  | Some (ray_origin, view_vector), Some _ =>
      let mouse_x := mouse_region_x e in
      let mouse_y := mouse_region_y e in
      let precision_mode := shift e in
      if precision_mode then
        match last_mouse s with
        | None => set_last_mouse (Some (mouse_x, mouse_y)) s
        | Some (last_mouse_x, last_mouse_y) =>
            let delta_x := (mouse_x - last_mouse_x)%Z in
            let delta_y := (mouse_y - last_mouse_y)%Z in
            let movement_threshold := 10%Z in
            if ((Z.abs delta_x <? movement_threshold)
                && (Z.abs delta_y <? movement_threshold))%Z
            then s
            else
              let '(forward_vec, right_vec) := get_view_relative_vectors ctx in
              let step_size := 1 # 10 in
              let current_location := location (preview s) in
              let new_location :=
                if (Z.abs delta_x <? Z.abs delta_y)%Z then
                  if (0 <? delta_y)%Z
                  then vadd current_location (vscale forward_vec step_size)
                  else vsub current_location (vscale forward_vec step_size)
                else
                  if (0 <? delta_x)%Z
                  then vadd current_location (vscale right_vec step_size)
                  else vsub current_location (vscale right_vec step_size) in
              let new_location := in_place new_location (vz current_location) in
              let s :=
                set_preview (object new_location (rotation_euler (preview s))) s in
              let s := set_base_location new_location s in
              let s := set_last_placed_position None s in
              let s := set_last_mouse (Some (mouse_x, mouse_y)) s in
              if auto_mode s then snd (place_tile_at_current_position s) else s
        end
      else
        let target_height := vz (location (preview s)) in
        if Qlt_bool (1 # 10000) (Qabs (vz view_vector)) then
          let t := (target_height - vz ray_origin) / vz view_vector in
          let intersection := vadd ray_origin (vscale view_vector t) in
          let snapped_location :=
            if Qeq_bool (movement_speed s) 1 then
              vec (rnd (vx intersection * 2) / 2) (rnd (vy intersection * 2) / 2)
                  (vz intersection)
            else
              let cube_size := current_tile_size s in
              let grid_factor := 1 / cube_size in
              vec (rnd (vx intersection * grid_factor) / grid_factor)
                  (rnd (vy intersection * grid_factor) / grid_factor)
                  (vz intersection) in
          let old_location := location (preview s) in
          let s :=
            set_preview (object snapped_location (rotation_euler (preview s))) s in
          let s := set_base_location snapped_location s in
          let s := set_last_placed_position None s in
          if auto_mode s
             && Qlt_bool (1 # 100) (sqlength (vsub old_location snapped_location))
          then snd (place_tile_at_current_position s)
          else s
        else s
  | _, _ => s
  end.

(** [modal]. The preview object is there for the whole session, so the
    safety check at the top passes. ESC and the right button call
    [cleanup_tool], which removes the preview and the templates from the
    scene and then evaluates [PLANE_PATTERNS + CUBE_PATTERNS + ...], names
    that [operator.py] does not import: the call raises [NameError], nothing
    around it catches that, and [modal] ends with the error before it can
    return CANCELLED. The cleanup has assigned none of the attributes kept
    here by then, so the state that goes with the error is the one the event
    found. No further event reaches the operator. *)
Definition modal (ctx : Context) (e : Event) (s : Session)
  : ModalResult * Session :=
  match type e, value e with
  | LEFTMOUSE, PRESS =>
      match find (icon_hit e) (rotation_icon_areas s) with
      | Some (face_index, _) => (RUNNING_MODAL, apply_preset face_index s)
      | None => (RUNNING_MODAL, snd (place_tile_at_current_position s))
      end
  | MOUSEMOVE, _ => (RUNNING_MODAL, update_preview_from_mouse ctx e s)
  | WHEELUPMOUSE, _ =>
      if ctrl e then (RUNNING_MODAL, change_tile_size 1 s)
      else (PASS_THROUGH, s)
  | WHEELDOWNMOUSE, _ =>
      if ctrl e then (RUNNING_MODAL, change_tile_size (-1) s)
      else (PASS_THROUGH, s)
  | OTHER_KEY, _ => (PASS_THROUGH, s)
  | _, RELEASE => (RUNNING_MODAL, s)
  | key, PRESS =>
      let precision_mode := shift e in
      let step := step_of precision_mode s in
      let loc := location (preview s) in
      let '(forward_vec, right_vec) := get_view_relative_vectors ctx in
      let original_z := vz loc in
      match key with
      | K_W | UP_ARROW =>
          let loc := in_place (vadd loc (vscale forward_vec step)) original_z in
          (RUNNING_MODAL, finish_move precision_mode loc s)
      | K_S | DOWN_ARROW =>
          let loc := in_place (vsub loc (vscale forward_vec step)) original_z in
          (RUNNING_MODAL, finish_move precision_mode loc s)
      | K_A | LEFT_ARROW =>
          let loc := in_place (vsub loc (vscale right_vec step)) original_z in
          (RUNNING_MODAL, finish_move precision_mode loc s)
      | K_D | RIGHT_ARROW =>
          let loc := in_place (vadd loc (vscale right_vec step)) original_z in
          (RUNNING_MODAL, finish_move precision_mode loc s)
      | K_Q | PAGE_UP =>
          let vertical_step := step in
          let loc := in_place loc (vz loc + vertical_step) in
          (RUNNING_MODAL, finish_move precision_mode loc s)
      | K_E | PAGE_DOWN =>
          let vertical_step := step in
          let loc := in_place loc (vz loc - vertical_step) in
          (RUNNING_MODAL, finish_move precision_mode loc s)
      | TAB =>
          (RUNNING_MODAL,
           apply_preset (Py.mod_ (Z.of_nat (rotation_state s) + 1)
                                 (length CUBE_FACES)) s)
      | ONE | NUMPAD_1 => (RUNNING_MODAL, apply_preset 0 s)
      | TWO | NUMPAD_2 => (RUNNING_MODAL, apply_preset 1 s)
      | THREE | NUMPAD_3 => (RUNNING_MODAL, apply_preset 2 s)
      | FOUR | NUMPAD_4 => (RUNNING_MODAL, apply_preset 3 s)
      | FIVE | NUMPAD_5 => (RUNNING_MODAL, apply_preset 4 s)
      | SIX | NUMPAD_6 => (RUNNING_MODAL, apply_preset 5 s)
      | K_R =>
          let rotation_angle :=
            if ctrl e then radians (-45) else radians 45 in
          let current_rotation := rotation_euler (preview s) in
          let current_rotation :=
            euler (ex current_rotation) (ey current_rotation)
                  (ez current_rotation + rotation_angle) in
          let s := set_preview (object (base_location s) current_rotation) s in
          (RUNNING_MODAL, set_last_placed_position None s)
      | K_T => (RUNNING_MODAL, change_tile_size 1 s)
      | K_I =>
          if (0 <? cube_templates_inverted s)%nat then
            let old_rotation := rotation_euler (preview s) in
            let old_location := location (preview s) in
            let s := set_inverted_mode (negb (inverted_mode s)) s in
            let s := set_preview (object old_location old_rotation) s in
            let s := set_base_location old_location s in
            (RUNNING_MODAL, set_last_placed_position None s)
          else (RUNNING_MODAL, s)
      | K_V =>
          if auto_mode s then (RUNNING_MODAL, s)
          else if Qeq_bool (movement_speed s) 1
          then (RUNNING_MODAL, set_movement_speed 2 s)
          else (RUNNING_MODAL, set_movement_speed 1 s)
      | K_X =>
          if negb (auto_mode s) then
            let s := set_auto_mode true s in
            let s := set_previous_speed (movement_speed s) s in
            (RUNNING_MODAL, set_movement_speed 2 s)
          else
            let s := set_auto_mode false s in
            (RUNNING_MODAL, set_movement_speed (previous_speed s) s)
      | K_C => (RUNNING_MODAL, delete_tile_at_current_position s)
      | K_Z =>
          if ctrl e then (RUNNING_MODAL, snd (undo_placement s))
          else (RUNNING_MODAL, s)
      | SPACE => (RUNNING_MODAL, snd (place_tile_at_current_position s))
      | ESC | RIGHTMOUSE => (NAME_ERROR, s)
      | _ => (RUNNING_MODAL, s)
      end
  end.

(** *** Running the operator *)

(** [invoke]: the state the session starts in, for a 3D cursor at
    [cursor_loc], [inverted] inverted cube templates and the host's mesh
    store as it is. The cube templates are stored unrotated. *)
Definition invoke (cursor_loc : Vector) (inverted : nat)
  (store : gmap mesh_id Mesh) : Session :=
  let s :=
    {| preview := object cursor_loc (euler 0 0 0);
       base_location := cursor_loc;
       master_object := None;
       placed_tiles := ∅;
       undo_history := [];
       undo_positions := [];
       movement_speed := 1;
       auto_mode := false;
       previous_speed := 1;
       inverted_mode := false;
       tile_size_index := 2;
       current_tile_size := nth 2 TILE_SIZES 0;
       rotation_state := 0;
       last_placed_position := None;
       cube_templates_inverted := inverted;
       rotation_icon_areas := [];
       last_mouse := None;
       meshes := store |} in
  let snapped_loc := snap_to_grid s cursor_loc in
  set_base_location snapped_loc
    (set_preview (object snapped_loc (euler 0 0 0)) s).

(** A sequence of events, each handled to completion before the next. *)
Definition run_events (evs : list (Context * Event)) (s : Session) : Session :=
  foldl (fun s '(ctx, e) => snd (modal ctx e s)) s evs.

(** A preview pose: what the moves, rotations, size changes and inversions
    between two commits leave behind. *)
Record Pose := pose {
  pose_location : Vector;
  pose_rotation : Euler;
  pose_size_index : nat;
  pose_inverted : bool
}.

Definition at_pose (p : Pose) (s : Session) : Session :=
  let s := set_preview (object (pose_location p) (pose_rotation p)) s in
  let s := set_base_location (pose_location p) s in
  let s := set_tile_size_index (pose_size_index p) s in
  let s := set_current_tile_size (nth (pose_size_index p) TILE_SIZES 0) s in
  let s := set_inverted_mode (pose_inverted p) s in
  set_last_placed_position None s.

(** One commit per pose, in order; the results are kept. *)
Fixpoint run_commits (poses : list Pose) (s : Session) : list bool * Session :=
  match poses with
  | [] => ([], s)
  | p :: rest =>
      let '(ok, s) := place_tile_at_current_position (at_pose p s) in
      let '(oks, s) := run_commits rest s in
      (ok :: oks, s)
  end.

(** [n] commits in a row with the preview left where it is. *)
Fixpoint commit_n (n : nat) (s : Session) : list bool * Session :=
  match n with
  | O => ([], s)
  | S n =>
      let '(ok, s) := place_tile_at_current_position s in
      let '(oks, s) := commit_n n s in
      (ok :: oks, s)
  end.

(** [n] undos in a row. *)
Fixpoint run_undos (n : nat) (s : Session) : list bool * Session :=
  match n with
  | O => ([], s)
  | S n =>
      let '(ok, s) := undo_placement s in
      let '(oks, s) := run_undos n s in
      (ok :: oks, s)
  end.

End Operator.

(** *** An instance of the host's trigonometry

    Exact at the quarter turns, and the double nearest to the square root of
    one half at the odd multiples of 45 degrees: the values [math.cos] and
    [math.sin] round to at the angles the presets and the Z-spin produce. *)

Definition sqrt_half : Q := 7071067811865476 # 10000000000000000.

Definition eighth_turns (x : Q) : Z := (Py.round (x / radians 45) mod 8)%Z.

Definition cos_eighth (x : Q) : Q :=
  match eighth_turns x with
  | 0%Z => 1 | 1%Z => sqrt_half | 2%Z => 0 | 3%Z => - sqrt_half
  | 4%Z => -1 | 5%Z => - sqrt_half | 6%Z => 0 | _ => sqrt_half
  end.

Definition sin_eighth (x : Q) : Q :=
  match eighth_turns x with
  | 0%Z => 0 | 1%Z => sqrt_half | 2%Z => 1 | 3%Z => sqrt_half
  | 4%Z => 0 | 5%Z => - sqrt_half | 6%Z => -1 | _ => - sqrt_half
  end.

(** ** [objects.py]: loading the helper objects *)

Definition PLANE_NAMES : list string :=
  ["Plane0.5x0.5"; "Plane1x1"; "Plane2x2"; "Plane4x4"]%string.
Definition CUBE_NAMES : list string :=
  ["Cube0.5x0.5"; "Cube1x1"; "Cube2x2"; "Cube4x4"]%string.
Definition CUBE_NAMES_INVERTED : list string :=
  ["Cube0.5x0.5_I"; "Cube1x1_I"; "Cube2x2_I"; "Cube4x4_I"]%string.

Definition PLANE_PATTERNS : list (list string) :=
  [ ["Plane0.5x0.5"; "Plane1x1"; "Plane2x2"; "Plane4x4"];
    ["Plane_0.5x0.5"; "Plane_1x1"; "Plane_2x2"; "Plane_4x4"];
    ["Plane.0.5x0.5"; "Plane.1x1"; "Plane.2x2"; "Plane.4x4"];
    ["plane0.5x0.5"; "plane1x1"; "plane2x2"; "plane4x4"] ]%string.

Definition CUBE_PATTERNS : list (list string) :=
  [ ["Cube0.5x0.5"; "Cube1x1"; "Cube2x2"; "Cube4x4"];
    ["Cube_0.5x0.5"; "Cube_1x1"; "Cube_2x2"; "Cube_4x4"];
    ["Cube.0.5x0.5"; "Cube.1x1"; "Cube.2x2"; "Cube.4x4"];
    ["cube0.5x0.5"; "cube1x1"; "cube2x2"; "cube4x4"] ]%string.

Definition CUBE_PATTERNS_INVERTED : list (list string) :=
  [ ["Cube0.5x0.5_I"; "Cube1x1_I"; "Cube2x2_I"; "Cube4x4_I"];
    ["Cube_0.5x0.5_I"; "Cube_1x1_I"; "Cube_2x2_I"; "Cube_4x4_I"];
    ["Cube.0.5x0.5_I"; "Cube.1x1_I"; "Cube.2x2_I"; "Cube.4x4_I"];
    ["cube0.5x0.5_i"; "cube1x1_i"; "cube2x2_i"; "cube4x4_i"] ]%string.

(** The three template lists of the operator; an object is known by its
    name in [bpy.data.objects]. *)
Record Templates := templates {
  plane_templates : list string;
  cube_templates : list string;
  inverted_templates : list string
}.

(** [all(bpy.data.objects.get(name) for name in pattern)] *)
Definition all_present (objects : gset string) (pattern : list string) : bool :=
  forallb (fun name => bool_decide (name ∈ objects)) pattern.

(** The loop over the patterns: the first one whose names are all there. *)
Definition first_pattern (objects : gset string)
  (patterns : list (list string)) : option (list string) :=
  find (all_present objects) patterns.

Section Loader.

(** [bpy.ops.wm.append] of the helper collection, as a map on the names in
    [bpy.data.objects]. *)
Variable wm_append : gset string -> gset string.

(** [load_tile_objects], for a blend file that is there or not and the
    objects of the scene; the result is the return value with the three
    template lists as they stand on return. *)
Definition load_tile_objects (blend_exists : bool) (objects : gset string)
  : bool * Templates :=
  if negb blend_exists then (false, templates [] [] [])
  else
    let all_objects_exist := all_present objects (PLANE_NAMES ++ CUBE_NAMES) in
    let objects := if all_objects_exist then objects else wm_append objects in
    let plane_names_found := first_pattern objects PLANE_PATTERNS in
    let planes := default [] plane_names_found in
    let missing_objects :=
      match plane_names_found with Some _ => [] | None => PLANE_NAMES end in
    let cube_names_found := first_pattern objects CUBE_PATTERNS in
    let cubes := default [] cube_names_found in
    let missing_objects :=
      missing_objects
      ++ match cube_names_found with Some _ => [] | None => CUBE_NAMES end in
    let cube_names_inverted_found :=
      first_pattern objects CUBE_PATTERNS_INVERTED in
    let inverted := default [] cube_names_inverted_found in
    match missing_objects with
    | [] => (true, templates planes cubes inverted)
    | _ :: _ => (false, templates planes cubes inverted)
    end.

(** The objects [load_tile_objects] looks the templates up in. *)
Definition objects_after_append (objects : gset string) : gset string :=
  if all_present objects (PLANE_NAMES ++ CUBE_NAMES) then objects
  else wm_append objects.

End Loader.

(** [get_current_cube_template]: the cube the preview is copied from, [None]
    where the list index is out of range. *)
Definition get_current_cube_template (t : Templates) (inverted_mode : bool)
  (tile_size_index : nat) : option string :=
  if inverted_mode && (tile_size_index <? length (inverted_templates t))%nat
  then inverted_templates t !! tile_size_index
  else cube_templates t !! tile_size_index.

(** ** Vocabulary of the properties *)

(** [y] is a multiple of the grid step [g], and no multiple of [g] is closer
    to [x] than [y] is. *)
Definition nearest_multiple (g x y : Q) : Prop :=
  (exists n : Z, y == inject_Z n * g) /\
  (forall m : Z, Qabs (y - x) <= Qabs (inject_Z m * g - x)).

(** The same on each coordinate of a point. *)
Definition vnearest (g : Q) (p q : Vector) : Prop :=
  nearest_multiple g (vx p) (vx q) /\
  nearest_multiple g (vy p) (vy q) /\
  nearest_multiple g (vz p) (vz q).

(** The fields the placement key is computed from are the same in both
    states. *)
Definition same_pose (s s' : Session) : Prop :=
  preview s' = preview s /\
  current_tile_size s' = current_tile_size s /\
  tile_size_index s' = tile_size_index s /\
  inverted_mode s' = inverted_mode s.

(** What the undo of a snapshot relies on: without a structure no tile is
    placed, and the two lists of the undo log go in step. *)
Definition ledger_inv (s : Session) : Prop :=
  (master_object s = None -> placed_tiles s = ∅) /\
  length (undo_history s) = length (undo_positions s).

(** One push seen from outside: entry [e] with the key set [ps] is appended
    to both lists and [d] entries leave at the front. *)
Definition pushed (d : nat) (e : option mesh_id) (s s' : Session) : Prop :=
  undo_history s' = drop d (undo_history s ++ [e]) /\
  undo_positions s' = drop d (undo_positions s ++ [placed_tiles s]).

(** The displacement a movement key asks for, for view axes [fwd] and
    [right] and a step [step]: forward and back along [fwd], right and left
    along [right], up and down along Z. *)
Definition move_delta (k : EventType) (fwd right : Vector) (step : Q)
  : Vector :=
  match k with
  | K_W | UP_ARROW => vscale fwd step
  | K_S | DOWN_ARROW => vscale fwd (- step)
  | K_D | RIGHT_ARROW => vscale right step
  | K_A | LEFT_ARROW => vscale right (- step)
  | K_Q | PAGE_UP => vec 0 0 step
  | K_E | PAGE_DOWN => vec 0 0 (- step)
  | _ => vec 0 0 0
  end.

Definition horizontal_keys : list EventType :=
  [K_W; UP_ARROW; K_S; DOWN_ARROW; K_A; LEFT_ARROW; K_D; RIGHT_ARROW].

Definition vertical_keys : list EventType := [K_Q; PAGE_UP; K_E; PAGE_DOWN].

(** The orientation the specification expects after a preset change: the
    preset's rotation with the accumulated Z offset on top. *)
Definition layered (preset : Euler) (z_offset : Q) : Euler :=
  euler (ex preset) (ey preset) (ez preset + z_offset).

(** The keys that select a face, with the preset each selects. *)
Definition face_keys : list (EventType * nat) :=
  [ (ONE, 0); (NUMPAD_1, 0); (TWO, 1); (NUMPAD_2, 1); (THREE, 2);
    (NUMPAD_3, 2); (FOUR, 3); (NUMPAD_4, 3); (FIVE, 4); (NUMPAD_5, 4);
    (SIX, 5); (NUMPAD_6, 5) ]%nat.

(** Concrete sessions and inputs the properties are run on. *)
Definition key_press (k : EventType) : Context * Event :=
  (context None None, event k PRESS false false 0 0).

Definition new_session : Session := invoke (vec 0 0 0) 0 ∅.

(** Twenty-one commits half a unit apart: SPACE, then twenty times D and
    SPACE. *)
Definition commits_21 : list (Context * Event) :=
  key_press SPACE :: concat (repeat [key_press K_D; key_press SPACE] 20).

(** [n] rounds of placing a tile and deleting it again. *)
Definition place_delete_rounds (n : nat) : list (Context * Event) :=
  concat (repeat [key_press SPACE; key_press K_C] n).

(** [n] poses one unit apart along X, starting at [x0]. *)
Definition poses_along_x (x0 : Z) (n : nat) : list Pose :=
  map (fun i => pose (vec (inject_Z (x0 + Z.of_nat i)) 0 0) (euler 0 0 0) 2 false)
      (seq 0 n).

(** Fast mode with the 1.0 tile. *)
Definition fast_unit_session : Session :=
  set_movement_speed 2 (set_current_tile_size 1 new_session).

(** A new session after one press of R: the preview is spun by 45 degrees
    on the Bottom preset. *)
Definition spun_session : Session :=
  run_events cos_eighth sin_eighth [key_press K_R] new_session.

(** The same after TAB: the cycle to the Top preset. *)
Definition spun_then_cycled : Session :=
  run_events cos_eighth sin_eighth [key_press TAB] spun_session.

(** A new session turned to the Top preset with the key 2. *)
Definition top_session : Session :=
  run_events cos_eighth sin_eighth [key_press TWO] new_session.

(** [y] lies on the grid of step [g] shifted by [o], and no point of that
    grid is closer to [x]. *)
Definition nearest_offset (g o x y : Q) : Prop :=
  (exists n : Z, y == inject_Z n * g + o) /\
  (forall m : Z, Qabs (y - x) <= Qabs (inject_Z m * g + o - x)).

(** The four horizontal unit axes. *)
Definition cardinals : list Vector :=
  [vec 1 0 0; vec (-1) 0 0; vec 0 1 0; vec 0 (-1) 0].

(** What the placement, deletion and undo code leaves alone: the preview
    and everything the keys for moving, turning, sizing and the modes set. *)
Definition same_controls (s s' : Session) : Prop :=
  preview s' = preview s /\
  base_location s' = base_location s /\
  tile_size_index s' = tile_size_index s /\
  current_tile_size s' = current_tile_size s /\
  rotation_state s' = rotation_state s /\
  inverted_mode s' = inverted_mode s /\
  cube_templates_inverted s' = cube_templates_inverted s /\
  rotation_icon_areas s' = rotation_icon_areas s /\
  movement_speed s' = movement_speed s /\
  auto_mode s' = auto_mode s.

(** The shape [invoke] gives the controls and every event keeps: the size is
    the table entry of its index, the face index is one of the six, the
    preview sits on its base location, the rotation icons name faces, and
    the inverted mode is on only if inverted cubes were loaded. *)
Definition well_formed (s : Session) : Prop :=
  (tile_size_index s < 4)%nat /\
  current_tile_size s = nth (tile_size_index s) TILE_SIZES 0 /\
  (rotation_state s < 6)%nat /\
  location (preview s) = base_location s /\
  Forall (fun area => (fst area < 6)%nat) (rotation_icon_areas s) /\
  (inverted_mode s = true -> (0 < cube_templates_inverted s)%nat).

(** The key with the inverted flag flipped. *)
Definition flip_inverted (k : PosKey) : PosKey :=
  let '(px, py, pz, rx, ry, rz, size_index, inverted) := k in
  (px, py, pz, rx, ry, rz, size_index, negb inverted).

(** The keys that turn the preview. *)
Definition rotation_keys : list EventType :=
  [TAB; K_R; ONE; NUMPAD_1; TWO; NUMPAD_2; THREE; NUMPAD_3; FOUR; NUMPAD_4;
   FIVE; NUMPAD_5; SIX; NUMPAD_6].

(** A new session with the four inverted cubes loaded. *)
Definition invertible_session : Session := invoke (vec 0 0 0) 4 ∅.

(** A new session switched to auto-mode. *)
Definition auto_session : Session :=
  run_events cos_eighth sin_eighth [key_press K_X] new_session.

(** A session with one tile, the preview still on it. *)
Definition one_tile_session : Session :=
  run_events cos_eighth sin_eighth [key_press SPACE] new_session.

(** A session with two tiles half a unit apart, the preview on the second. *)
Definition two_tile_session : Session :=
  run_events cos_eighth sin_eighth
    [key_press SPACE; key_press K_D; key_press SPACE] new_session.

(** An append that brings the eight standard helper objects. *)
Definition standard_append (objects : gset string) : gset string :=
  objects ∪ list_to_set (PLANE_NAMES ++ CUBE_NAMES).

(** A tile with its position and rotation rounded to six decimals, the
    way a placement key records them. *)
Definition round_face (f : Vector * Euler * nat) : Vector * Euler * nat :=
  let '(p, r, i) := f in
  (vec (Py.round6 (vx p)) (Py.round6 (vy p)) (Py.round6 (vz p)),
   euler (Py.round6 (ex r)) (Py.round6 (ey r)) (Py.round6 (ez r)), i).

(** The template copies that went into a datablock. *)
Definition tiles_of (mesh : Mesh) : list (Vector * Euler * nat) :=
  omap (fun step => match step with
                    | tile_copy tile => Some tile
                    | remove_doubles => None
                    end) mesh.

(** A datablock was built for a key set: the template copies that went into
    it are, with their poses rounded, the tiles of the keys, one copy per
    key. This speaks of the calls that built the datablock, not of the faces
    the host keeps after welding or of where they show. *)
Definition built_for (mesh : Mesh) (keys : gset PosKey) : Prop :=
  round_face <$> tiles_of mesh ≡ₚ tile_of_key <$> elements keys.

(** The keys are in rounded form. *)
Definition rounded (keys : gset PosKey) : Prop :=
  forall k, k ∈ keys -> round_face (tile_of_key k) = tile_of_key k.

(** A log entry as [store_undo_snapshot] leaves it: without a mesh it goes
    with the empty key set; with a mesh the key set is not empty, and the
    mesh is in the store and was built for it. *)
Definition snapshot_ok (store : gmap mesh_id Mesh) (e : option mesh_id)
  (keys : gset PosKey) : Prop :=
  rounded keys /\
  match e with
  | Some m =>
      keys <> ∅ /\ exists mesh, store !! m = Some mesh /\ built_for mesh keys
  | None => keys = ∅
  end.

(** The meshes the log holds. *)
Definition log_ids (h : list (option mesh_id)) : list mesh_id := omap id h.

(** Store, structure, ledger and log fit together: every log entry is as
    [snapshot_ok] says, no mesh is logged twice, and either there is no
    structure and no key, or there are keys and the structure has a mesh in
    the store that was built for them and is not in the log. *)
Definition fits (store : gmap mesh_id Mesh) (master : option Structure)
  (keys : gset PosKey) (h : list (option mesh_id)) (ps : list (gset PosKey))
  : Prop :=
  rounded keys /\
  Forall2 (snapshot_ok store) h ps /\
  NoDup (log_ids h) /\
  match master with
  | Some master =>
      keys <> ∅ /\
      (exists mesh, store !! data master = Some mesh /\ built_for mesh keys) /\
      data master ∉ log_ids h
  | None => keys = ∅
  end.

Definition mirror_inv (s : Session) : Prop :=
  ledger_inv s /\
  fits (meshes s) (master_object s) (placed_tiles s) (undo_history s)
    (undo_positions s).

(** The session is still running after the events: none of them was an ESC
    or a right click, which end [modal] with an error, after which no further
    event reaches the operator. *)
Fixpoint stays_running (cos sin : Q -> Q) (evs : list (Context * Event))
  (s : Session) : bool :=
  match evs with
  | [] => true
  | (ctx, e) :: evs =>
      match modal cos sin ctx e s with
      | (NAME_ERROR, _) | (CANCELLED, _) => false
      | (_, s) => stays_running cos sin evs s
      end
  end.

(** The session a list of events leaves behind, from [invoke] on. *)
Definition session_after (cos sin : Q -> Q) (cursor_loc : Vector)
  (inverted : nat) (store : gmap mesh_id Mesh) (evs : list (Context * Event))
  : Session :=
  run_events cos sin evs (invoke cursor_loc inverted store).

(** Two tiles placed, then the second deleted, then the deletion undone. *)
Definition place_delete_undo : list (Context * Event) :=
  [key_press SPACE; key_press K_D; key_press SPACE; key_press K_C;
   (context None None, event K_Z PRESS false true 0 0)].

(** * Properties *)

(** ** Rounding *)

Lemma round_comp (x y : Q) : x == y -> Py.round x = Py.round y.
Proof.
  intros H. unfold Py.round.
  rewrite (Qfloor_comp _ _ H).
  assert (Hc : Qcompare (x - inject_Z (Qfloor y)) (1 # 2)
               = Qcompare (y - inject_Z (Qfloor y)) (1 # 2)).
  { apply Qcompare_comp; [rewrite H|]; reflexivity. }
  now rewrite Hc.
Qed.

Lemma round_inject_Z (n : Z) : Py.round (inject_Z n) = n.
Proof.
  unfold Py.round. rewrite Qfloor_Z.
  assert (Hc : Qcompare (inject_Z n - inject_Z n) (1 # 2) = Lt).
  { apply -> Qlt_alt. lra. }
  now rewrite Hc.
Qed.

Lemma floor_frac (x : Q) :
  0 <= x - inject_Z (Qfloor x) /\ x - inject_Z (Qfloor x) < 1.
Proof.
  pose proof (Qfloor_le x) as Hl. pose proof (Qlt_floor x) as Hu.
  rewrite inject_Z_plus in Hu. change (inject_Z 1) with 1 in Hu. lra.
Qed.

(** [round] picks the floor or the next integer, whichever is nearer. *)
Lemma round_cases (x : Q) :
  (Py.round x = Qfloor x /\ x - inject_Z (Qfloor x) <= 1 # 2) \/
  (Py.round x = (Qfloor x + 1)%Z /\ 1 # 2 <= x - inject_Z (Qfloor x)).
Proof.
  unfold Py.round.
  destruct (Qcompare (x - inject_Z (Qfloor x)) (1 # 2)) eqn:Hc.
  - apply <- Qeq_alt in Hc.
    destruct (Z.even (Qfloor x)); [left | right]; (split; [reflexivity | lra]).
  - apply <- Qlt_alt in Hc. left. split; [reflexivity | lra].
  - apply <- Qgt_alt in Hc. right. split; [reflexivity | lra].
Qed.

Lemma Qabs_lower (a b : Q) : a <= b \/ a <= - b -> a <= Qabs b.
Proof.
  intros [H | H].
  - pose proof (Qle_Qabs b). lra.
  - pose proof (Qle_Qabs (- b)) as H1. rewrite Qabs_opp in H1. lra.
Qed.

(** The rounded value is at least as close to [x] as any integer. *)
Lemma round_nearest (x : Q) (m : Z) :
  Qabs (inject_Z (Py.round x) - x) <= Qabs (inject_Z m - x).
Proof.
  destruct (floor_frac x) as [H0 H1].
  assert (Hm : (m <= Qfloor x)%Z \/ (Qfloor x + 1 <= m)%Z) by lia.
  assert (Hm' : inject_Z m <= inject_Z (Qfloor x)
                \/ inject_Z (Qfloor x) + 1 <= inject_Z m).
  { destruct Hm as [Hm | Hm]; [left | right].
    - now rewrite <- Zle_Qle.
    - rewrite Zle_Qle, inject_Z_plus in Hm. exact Hm. }
  destruct (round_cases x) as [[-> Hr] | [-> Hr]].
  - apply Qabs_case; intros _; apply Qabs_lower; destruct Hm'; lra.
  - rewrite inject_Z_plus. change (inject_Z 1) with 1.
    apply Qabs_case; intros _; apply Qabs_lower; destruct Hm'; lra.
Qed.

Lemma Qabs_le_scale (k a b a' b' : Q) :
  0 < k -> a' * k == a -> b' * k == b -> Qabs a <= Qabs b ->
  Qabs a' <= Qabs b'.
Proof.
  intros Hk Ha Hb H. rewrite <- Ha, <- Hb, !Qabs_Qmult in H.
  rewrite (Qabs_pos k) in H by lra.
  now apply Qmult_le_r in H.
Qed.

(** [round(c * k) / k] is the nearest multiple of [1/k]. *)
Lemma nearest_scaled (k : Z) (c : Q) :
  (0 < k)%Z ->
  nearest_multiple (1 / inject_Z k) c (rnd (c * inject_Z k) / inject_Z k).
Proof.
  intros Hk.
  assert (Hk' : 0 < inject_Z k).
  { change 0 with (inject_Z 0). now rewrite <- Zlt_Qlt. }
  split.
  - exists (Py.round (c * inject_Z k)). unfold rnd. field. lra.
  - intros m.
    apply (Qabs_le_scale (inject_Z k)
             (rnd (c * inject_Z k) - c * inject_Z k)
             (inject_Z m - c * inject_Z k)); try assumption.
    + field. lra.
    + field. lra.
    + apply round_nearest.
Qed.

Lemma nearest_eq (g g' x y y' : Q) :
  g == g' -> y == y' -> nearest_multiple g x y -> nearest_multiple g' x y'.
Proof.
  intros Hg Hy [[n Hn] Hm]. split.
  - exists n. now rewrite <- Hg, <- Hy.
  - intros m. rewrite <- Hg, <- Hy. apply Hm.
Qed.

Lemma nearest_quarter (c : Q) : nearest_multiple (1 # 4) c (rnd (c * 4) / 4).
Proof.
  apply (nearest_eq (1 / inject_Z 4) _ _ (rnd (c * inject_Z 4) / inject_Z 4));
    [reflexivity | reflexivity | now apply nearest_scaled].
Qed.

Lemma nearest_half (c : Q) : nearest_multiple (1 # 2) c (rnd (c * 2) / 2).
Proof.
  apply (nearest_eq (1 / inject_Z 2) _ _ (rnd (c * inject_Z 2) / inject_Z 2));
    [reflexivity | reflexivity | now apply nearest_scaled].
Qed.

Lemma nearest_unit (c : Q) : nearest_multiple 1 c (rnd c).
Proof.
  apply (nearest_eq (1 / inject_Z 1) _ _ (rnd (c * inject_Z 1) / inject_Z 1)).
  - reflexivity.
  - unfold rnd. rewrite (round_comp (c * inject_Z 1) c) by (unfold inject_Z; lra).
    unfold inject_Z. field.
  - now apply nearest_scaled.
Qed.

Lemma Qeq_bool_false (a b : Q) : ~ a == b -> Qeq_bool a b = false.
Proof.
  intros H. destruct (Qeq_bool a b) eqn:E; [|reflexivity].
  apply Qeq_bool_iff in E. contradiction.
Qed.

Lemma Qeq_bool_true (a b : Q) : a == b -> Qeq_bool a b = true.
Proof. apply Qeq_bool_iff. Qed.

(** C6. In Normal speed mode the snap function rounds every coordinate to
    the nearest point of a grid that depends on the tile size: the quarter
    grid for sizes 0.5 and 1.0, the half grid for size 2.0 and the unit grid
    for size 4.0. *)
Theorem snap_to_grid_normal_grid (s : Session) (p : Vector) :
  movement_speed s == 1 ->
  (current_tile_size s == 1 # 2 \/ current_tile_size s == 1 ->
   vnearest (1 # 4) p (snap_to_grid s p)) /\
  (current_tile_size s == 2 -> vnearest (1 # 2) p (snap_to_grid s p)) /\
  (current_tile_size s == 4 -> vnearest 1 p (snap_to_grid s p)).
Proof.
  intros Hspeed. unfold snap_to_grid.
  rewrite (Qeq_bool_true _ _ Hspeed).
  split; [|split].
  - intros [H | H].
    + rewrite (Qeq_bool_true _ _ H).
      repeat split; simpl; apply nearest_quarter.
    + rewrite (Qeq_bool_true _ _ H).
      destruct (Qeq_bool (current_tile_size s) (1 # 2));
        repeat split; simpl; apply nearest_quarter.
  - intros H.
    rewrite (Qeq_bool_false _ (1 # 2)) by (rewrite H; discriminate).
    rewrite (Qeq_bool_false _ 1) by (rewrite H; discriminate).
    rewrite (Qeq_bool_true _ _ H).
    repeat split; simpl; apply nearest_half.
  - intros H.
    rewrite (Qeq_bool_false _ (1 # 2)) by (rewrite H; discriminate).
    rewrite (Qeq_bool_false _ 1) by (rewrite H; discriminate).
    rewrite (Qeq_bool_false _ 2) by (rewrite H; discriminate).
    repeat split; simpl; apply nearest_unit.
Qed.

Lemma snap_to_grid_normal_grid_witness :
  movement_speed (invoke (vec 0 0 0) 0 ∅) == 1 /\
  current_tile_size (invoke (vec 0 0 0) 0 ∅) == 2 /\
  vnearest (1 # 2) (vec (3 # 10) (19 # 25) (-5 # 4))
    (snap_to_grid (invoke (vec 0 0 0) 0 ∅) (vec (3 # 10) (19 # 25) (-5 # 4))).
Proof.
  split; [reflexivity | split; [reflexivity |]].
  apply (snap_to_grid_normal_grid (invoke (vec 0 0 0) 0 ∅)); reflexivity.
Defined.

(** ** Idempotence of snapping *)

Lemma rnd_scaled (c k : Q) : ~ k == 0 -> rnd (rnd c / k * k) = rnd c.
Proof.
  intros Hk. unfold rnd at 1 3. f_equal.
  transitivity (Py.round (inject_Z (Py.round c)));
    [apply round_comp; unfold rnd; field; exact Hk | apply round_inject_Z].
Qed.

Lemma rnd_rnd (c : Q) : rnd (rnd c) = rnd c.
Proof. unfold rnd. f_equal. apply round_inject_Z. Qed.

Lemma rnd_offset (c d : Q) : rnd (rnd c + d - d) = rnd c.
Proof.
  unfold rnd at 1 3. f_equal.
  transitivity (Py.round (inject_Z (Py.round c)));
    [apply round_comp; unfold rnd; ring | apply round_inject_Z].
Qed.

Lemma rnd_doubled (c k : Q) : ~ k == 0 -> rnd (rnd c * k / k) = rnd c.
Proof.
  intros Hk. unfold rnd at 1 3. f_equal.
  transitivity (Py.round (inject_Z (Py.round c)));
    [apply round_comp; unfold rnd; field; exact Hk | apply round_inject_Z].
Qed.

(** C7. Grid snapping is idempotent: for every point, every tile size and
    both speed modes (the half-offset grid of Fast mode at size 1.0
    included) snapping a snapped point gives it back unchanged. *)
Theorem snap_to_grid_idempotent (s : Session) (p : Vector) :
  snap_to_grid s (snap_to_grid s p) = snap_to_grid s p.
Proof.
  unfold snap_to_grid.
  destruct (Qeq_bool (movement_speed s) 1),
           (Qeq_bool (current_tile_size s) (1 # 2)),
           (Qeq_bool (current_tile_size s) 1),
           (Qeq_bool (current_tile_size s) 2); cbn [vx vy vz];
    rewrite ?rnd_scaled, ?rnd_rnd, ?rnd_offset, ?rnd_doubled by discriminate;
    reflexivity.
Qed.

(** ** View-relative movement axes *)

Lemma single_axis_cardinal (h : Vector) :
  single_axis h ∈ [vec 1 0 0; vec (-1) 0 0; vec 0 1 0; vec 0 (-1) 0].
Proof.
  unfold single_axis.
  destruct (Qlt_bool (Qabs (vy h)) (Qabs (vx h))),
           (Qlt_bool 0 (vx h)), (Qlt_bool 0 (vy h));
    repeat (first [apply list_elem_of_here | apply list_elem_of_further]).
Qed.

(** C9. Whatever the camera orientation, the two vectors of the view
    projection are each one of (1,0,0), (-1,0,0), (0,1,0), (0,-1,0): along
    world X or world Y, never diagonal, never with a Z component. Without a
    3D view, or with camera data that cannot be read, the result is
    forward = (0,1,0) and right = (1,0,0). *)
Theorem get_view_relative_vectors_cardinal (ctx : Context) :
  fst (get_view_relative_vectors ctx)
    ∈ [vec 1 0 0; vec (-1) 0 0; vec 0 1 0; vec 0 (-1) 0] /\
  snd (get_view_relative_vectors ctx)
    ∈ [vec 1 0 0; vec (-1) 0 0; vec 0 1 0; vec 0 (-1) 0] /\
  get_view_relative_vectors (context None None) = (vec 0 1 0, vec 1 0 0) /\
  get_view_relative_vectors (context None (Some (region_view None)))
    = (vec 0 1 0, vec 1 0 0).
Proof.
  repeat split; try reflexivity; unfold get_view_relative_vectors;
    destruct (region_data ctx) as [[[m|]]|]; cbn [fst snd];
    first [ apply single_axis_cardinal
          | repeat (first [apply list_elem_of_here | apply list_elem_of_further]) ].
Qed.

(** ** The undo log and the ledger *)

Section Ledger.

Variables cos sin : Q -> Q.

Abbreviation current_key := (pos_key cos sin).
Abbreviation place := (place_tile_at_current_position cos sin).
Abbreviation delete := (delete_tile_at_current_position cos sin).

Lemma cons_eq (a b : bool) (l k : list bool) :
  a :: l = b :: k -> a = b /\ l = k.
Proof. intros H. now injection H. Qed.

Lemma same_pose_refl (s : Session) : same_pose s s.
Proof. repeat split. Qed.

Lemma same_pose_trans (s1 s2 s3 : Session) :
  same_pose s1 s2 -> same_pose s2 s3 -> same_pose s1 s3.
Proof.
  intros (A1 & A2 & A3 & A4) (B1 & B2 & B3 & B4).
  repeat split; congruence.
Qed.

Lemma same_pose_face (s s' : Session) :
  same_pose s s' ->
  get_green_face_world_position cos sin s'
  = get_green_face_world_position cos sin s.
Proof.
  intros (A1 & A2 & A3 & A4). unfold get_green_face_world_position.
  now rewrite A1, A2.
Qed.

Lemma same_pose_key (s s' : Session) : same_pose s s' -> current_key s' = current_key s.
Proof.
  intros H. pose proof (same_pose_face _ _ H) as Hf.
  destruct H as (A1 & A2 & A3 & A4). unfold pos_key.
  now rewrite Hf, A1, A3, A4.
Qed.

(** What a snapshot push changes: the two lists of the log (and the mesh
    store), nothing else the ledger looks at. *)
Lemma store_undo_snapshot_spec (s : Session) :
  same_pose s (store_undo_snapshot s) /\
  placed_tiles (store_undo_snapshot s) = placed_tiles s /\
  master_object (store_undo_snapshot s) = master_object s /\
  exists d e,
    pushed d e s (store_undo_snapshot s) /\
    (e = None <-> master_object s = None) /\
    (d = 0%nat \/
     d = 1%nat /\ (20 <= length (undo_history s))%nat
     /\ master_object s <> None).
Proof.
  unfold store_undo_snapshot, pushed.
  destruct (master_object s) as [master|] eqn:Hm.
  - cbn -[Nat.ltb drop].
    destruct (20 <? length (undo_history s ++ [Some (fresh_mesh (meshes s))]))%nat
      eqn:Hlen.
    + apply Nat.ltb_lt in Hlen. rewrite length_app in Hlen. simpl in Hlen.
      destruct (undo_history s ++ [Some (fresh_mesh (meshes s))])
        as [|old rest] eqn:Hh.
      { destruct (undo_history s); discriminate. }
      repeat split; try (destruct old; exact Hm || reflexivity).
      exists 1%nat, (Some (fresh_mesh (meshes s))).
      repeat split; try discriminate.
      * rewrite Hh. destruct old; reflexivity.
      * destruct old; cbn; now destruct (undo_positions s ++ [placed_tiles s]).
      * right. repeat split; [lia | discriminate].
    + repeat split; try assumption.
      exists 0%nat, (Some (fresh_mesh (meshes s))).
      repeat split; try discriminate. now left.
  - cbn. repeat split; try assumption.
    exists 0%nat, None. repeat split; now left.
Qed.

Lemma place_occupied (s : Session) :
  current_key s ∈ placed_tiles s -> place s = (false, s).
Proof.
  intros H. unfold place_tile_at_current_position.
  now rewrite decide_True.
Qed.

Lemma place_true (s : Session) : fst (place s) = true -> current_key s ∉ placed_tiles s.
Proof.
  intros H Hin. rewrite (place_occupied s Hin) in H. discriminate.
Qed.

(** A commit at a free key: the key joins the set, one snapshot is pushed
    first, a structure exists afterwards and the preview is not touched. *)
Lemma place_free (s : Session) :
  current_key s ∉ placed_tiles s ->
  fst (place s) = true /\
  same_pose s (snd (place s)) /\
  placed_tiles (snd (place s)) = {[current_key s]} ∪ placed_tiles s /\
  master_object (snd (place s)) <> None /\
  exists d e,
    pushed d e s (snd (place s)) /\
    (e = None <-> master_object s = None) /\
    (d = 0%nat \/
     d = 1%nat /\ (20 <= length (undo_history s))%nat
     /\ master_object s <> None).
Proof.
  intros H. unfold place_tile_at_current_position.
  rewrite decide_False by exact H.
  destruct (store_undo_snapshot_spec s)
    as (Hpose & Hpl & Hmo & d & e & [Hh Hp] & He & Hd).
  remember (store_undo_snapshot s) as s' eqn:Es. clear Es.
  unfold new_tile_mesh.
  cbn -[get_green_face_world_position pos_key].
  destruct Hpose as (A1 & A2 & A3 & A4).
  destruct (master_object s') as [master|] eqn:Hm';
    cbn -[get_green_face_world_position pos_key];
    (split; [reflexivity|]);
    (split; [now repeat split|]);
    (split; [now rewrite Hpl|]);
    (split; [congruence|]);
    exists d, e; (split; [split; [exact Hh | exact Hp] | now split]).
Qed.

Lemma at_pose_ledger (p : Pose) (s : Session) :
  placed_tiles (at_pose p s) = placed_tiles s /\
  master_object (at_pose p s) = master_object s /\
  undo_history (at_pose p s) = undo_history s /\
  undo_positions (at_pose p s) = undo_positions s.
Proof. repeat split. Qed.

(** Undo of a snapshot taken without a structure. *)
Lemma undo_empty_entry (s : Session) h ps P :
  undo_history s = h ++ [None] -> undo_positions s = ps ++ [P] ->
  fst (undo_placement s) = true /\
  placed_tiles (snd (undo_placement s)) = ∅ /\
  master_object (snd (undo_placement s)) = None /\
  undo_history (snd (undo_placement s)) = h /\
  undo_positions (snd (undo_placement s)) = ps.
Proof.
  intros Hh Hp. unfold undo_placement.
  rewrite Hh, last_snoc. cbn. rewrite Hp, last_snoc. cbn.
  rewrite ?Hh, ?Hp, ?removelast_last. repeat split.
Qed.

(** Undo of a snapshot taken with a structure, while a structure exists. *)
Lemma undo_mesh_entry (s : Session) h ps P m master :
  undo_history s = h ++ [Some m] -> undo_positions s = ps ++ [P] ->
  master_object s = Some master ->
  fst (undo_placement s) = true /\
  placed_tiles (snd (undo_placement s)) = P /\
  master_object (snd (undo_placement s)) <> None /\
  undo_history (snd (undo_placement s)) = h /\
  undo_positions (snd (undo_placement s)) = ps.
Proof.
  intros Hh Hp Hm. unfold undo_placement.
  rewrite Hh, last_snoc. cbn. rewrite Hp, last_snoc. cbn.
  rewrite ?Hm. cbn. rewrite ?Hh, ?Hp, ?removelast_last. repeat split.
  discriminate.
Qed.

(** Undo with an empty log: nothing to undo, nothing changes. *)
Lemma undo_nothing (s : Session) :
  undo_history s = [] -> undo_placement s = (false, s).
Proof. intros H. unfold undo_placement. now rewrite H. Qed.

Lemma run_commits_cons (p : Pose) (rest : list Pose) (s : Session) :
  fst (run_commits cos sin (p :: rest) s)
  = fst (place (at_pose p s))
    :: fst (run_commits cos sin rest (snd (place (at_pose p s)))) /\
  snd (run_commits cos sin (p :: rest) s)
  = snd (run_commits cos sin rest (snd (place (at_pose p s)))).
Proof.
  cbn [run_commits]. destruct (place (at_pose p s)) as [ok s'].
  cbn [fst snd]. destruct (run_commits cos sin rest s') as [oks s''].
  now split.
Qed.

Lemma run_undos_snoc (n : nat) (s : Session) :
  fst (run_undos (S n) s)
  = fst (run_undos n s) ++ [fst (undo_placement (snd (run_undos n s)))] /\
  snd (run_undos (S n) s) = snd (undo_placement (snd (run_undos n s))).
Proof.
  revert s. induction n as [|n IH]; intros s.
  - cbn. destruct (undo_placement s). now split.
  - destruct (IH (snd (undo_placement s))) as [IH1 IH2].
    change (run_undos (S (S n)) s)
      with (let '(ok, s1) := undo_placement s in
            let '(oks, s2) := run_undos (S n) s1 in (ok :: oks, s2)).
    change (run_undos (S n) s)
      with (let '(ok, s1) := undo_placement s in
            let '(oks, s2) := run_undos n s1 in (ok :: oks, s2)).
    destruct (undo_placement s) as [ok s1]. cbn [snd] in IH1, IH2.
    destruct (run_undos (S n) s1) as [oks2 s2].
    destruct (run_undos n s1) as [oks1 s1']. cbn [fst snd] in *.
    subst. now split.
Qed.

Lemma place_inv (s : Session) :
  current_key s ∉ placed_tiles s -> ledger_inv s -> ledger_inv (snd (place s)).
Proof.
  intros Hfree [H1 H2].
  destruct (place_free s Hfree)
    as (_ & _ & _ & Hmo & d & e & [Hh Hp] & _ & _).
  split; [intros H; contradiction|].
  rewrite Hh, Hp, !length_drop, !length_app. cbn. lia.
Qed.

(** Up to twenty commits followed by as many undos: every undo succeeds and
    the key set is the one before the commits; the log is the old one, short
    of the entries the cap has evicted at its front. *)
Lemma commits_then_undos (poses : list Pose) (s : Session) :
  ledger_inv s -> (length poses <= 20)%nat ->
  fst (run_commits cos sin poses s) = repeat true (length poses) ->
  fst (run_undos (length poses) (snd (run_commits cos sin poses s)))
  = repeat true (length poses) /\
  placed_tiles (snd (run_undos (length poses)
                       (snd (run_commits cos sin poses s))))
  = placed_tiles s /\
  (master_object (snd (run_undos (length poses)
                         (snd (run_commits cos sin poses s)))) = None
   <-> master_object s = None) /\
  exists D,
    undo_history (snd (run_undos (length poses)
                         (snd (run_commits cos sin poses s))))
    = drop D (undo_history s) /\
    undo_positions (snd (run_undos (length poses)
                           (snd (run_commits cos sin poses s))))
    = drop D (undo_positions s) /\
    (D = 0%nat \/ (D + 20 <= length (undo_history s) + length poses)%nat).
Proof.
  revert s. induction poses as [|p rest IH]; intros s Hinv Hlen Hok.
  - cbn. repeat split; try tauto. exists 0%nat. repeat split. now left.
  - destruct (run_commits_cons p rest s) as [Hf Hs].
    rewrite Hs. rewrite Hf in Hok. cbn [length repeat] in Hok, Hlen |- *.
    injection Hok as Hok1 Hok2.
    pose proof (place_true _ Hok1) as Hfree.
    destruct (place_free _ Hfree)
      as (_ & _ & _ & Hmo & d & e & [Hh Hp] & He & Hd).
    assert (Hinv' : ledger_inv (snd (place (at_pose p s)))).
    { apply place_inv; [exact Hfree | exact Hinv]. }
    remember (snd (place (at_pose p s))) as s' eqn:Es'. clear Es'.
    change (undo_history (at_pose p s)) with (undo_history s) in *.
    change (undo_positions (at_pose p s)) with (undo_positions s) in *.
    change (placed_tiles (at_pose p s)) with (placed_tiles s) in *.
    change (master_object (at_pose p s)) with (master_object s) in *.
    destruct (IH s' Hinv' ltac:(lia) Hok2)
      as (Hb & Hpl2 & Hmo2 & D' & Hh2 & Hp2 & HD').
    destruct (run_undos_snoc (length rest)
                (snd (run_commits cos sin rest s'))) as [Hu1 Hu2].
    rewrite Hu1, Hu2, Hb.
    remember (snd (run_undos (length rest)
                     (snd (run_commits cos sin rest s')))) as s2 eqn:Es2.
    clear Es2 Hu1 Hu2 Hb IH.
    destruct Hinv as [Hempty Hsync].
    assert (HL : length (undo_history s') =
                 (length (undo_history s) + 1 - d)%nat).
    { rewrite Hh, length_drop, length_app. reflexivity. }
    assert (HD : (d + D' <= length (undo_history s))%nat) by lia.
    rewrite Hh, drop_drop, drop_app_le in Hh2 by exact HD.
    rewrite Hp, drop_drop, drop_app_le in Hp2 by (rewrite <- Hsync; exact HD).
    assert (Hrep : forall (b : bool) n, repeat b n ++ [b] = b :: repeat b n).
    { intros b n. induction n as [|n IHn]; cbn; [reflexivity|].
      now rewrite IHn. }
    destruct e as [m|].
    + assert (Hsome : master_object s <> None).
      { intros Hn. apply He in Hn. discriminate. }
      destruct (master_object s2) as [master|] eqn:Hm2.
      2:{ exfalso. apply Hmo. now apply Hmo2. }
      destruct (undo_mesh_entry s2 _ _ _ _ _ Hh2 Hp2 Hm2)
        as (U1 & U2 & U3 & U4 & U5).
      rewrite U1, U2. split; [apply Hrep|]. split; [reflexivity|].
      split; [tauto|].
      exists (d + D')%nat. repeat split; [exact U4 | exact U5 | lia].
    + assert (Hnone : master_object s = None) by now apply He.
      destruct (undo_empty_entry s2 _ _ _ Hh2 Hp2)
        as (U1 & U2 & U3 & U4 & U5).
      rewrite U1, U2. split; [apply Hrep|].
      split; [symmetry; now apply Hempty|].
      split; [tauto|].
      exists (d + D')%nat. repeat split; [exact U4 | exact U5 | lia].
Qed.

(** *** The invariant along a session *)

Lemma ledger_inv_ext (s s' : Session) :
  placed_tiles s' = placed_tiles s -> master_object s' = master_object s ->
  undo_history s' = undo_history s -> undo_positions s' = undo_positions s ->
  ledger_inv s -> ledger_inv s'.
Proof.
  intros E1 E2 E3 E4 [H1 H2]. split.
  - intros H. rewrite E1. apply H1. congruence.
  - congruence.
Qed.

Lemma invoke_inv (cursor_loc : Vector) (inverted : nat)
  (store : gmap mesh_id Mesh) : ledger_inv (invoke cursor_loc inverted store).
Proof. split; reflexivity. Qed.

Lemma place_inv_any (s : Session) : ledger_inv s -> ledger_inv (snd (place s)).
Proof.
  intros H. destruct (decide (current_key s ∈ placed_tiles s)) as [Hin | Hout].
  - now rewrite (place_occupied s Hin).
  - now apply place_inv.
Qed.

Lemma undo_inv (s : Session) :
  ledger_inv s -> ledger_inv (snd (undo_placement s)).
Proof.
  intros [H1 H2]. unfold undo_placement.
  destruct (last (undo_history s)) as [lm|] eqn:El; [|now split].
  apply last_Some in El as [h Eh]. cbn.
  destruct (last (undo_positions s)) as [lp|] eqn:Ep.
  2:{ apply last_None in Ep. rewrite Eh, Ep, length_app in H2.
      cbn in H2. lia. }
  apply last_Some in Ep as [ps Ep].
  assert (Hlen : length h = length ps).
  { rewrite Eh, Ep, !length_app in H2. cbn in H2. lia. }
  destruct lm as [m|]; [destruct (master_object s) as [master|] eqn:Em|];
    cbn; rewrite ?Eh, ?Ep, ?removelast_last; split; cbn;
    rewrite ?Eh, ?Ep, ?removelast_last; try assumption; try discriminate;
    try reflexivity.
  intros _. now apply H1.
Qed.

Lemma rebuild_fold (keys : list PosKey) (acc : list Structure * Session) :
  length (fst (foldl recreate_tile acc keys))
  = (length (fst acc) + length keys)%nat /\
  placed_tiles (snd (foldl recreate_tile acc keys)) = placed_tiles (snd acc) /\
  master_object (snd (foldl recreate_tile acc keys)) = master_object (snd acc) /\
  undo_history (snd (foldl recreate_tile acc keys)) = undo_history (snd acc) /\
  undo_positions (snd (foldl recreate_tile acc keys))
  = undo_positions (snd acc).
Proof.
  revert acc. induction keys as [|k keys IH]; intros acc.
  - cbn. repeat split. lia.
  - cbn [foldl]. destruct (IH (recreate_tile acc k)) as (I1 & I2 & I3 & I4 & I5).
    rewrite I1, I2, I3, I4, I5. unfold recreate_tile, new_tile_mesh. cbn.
    rewrite length_app. cbn. repeat split. lia.
Qed.

Lemma rebuild_spec (s : Session) :
  placed_tiles (rebuild_structure_mesh s) = placed_tiles s /\
  undo_history (rebuild_structure_mesh s) = undo_history s /\
  undo_positions (rebuild_structure_mesh s) = undo_positions s /\
  (master_object (rebuild_structure_mesh s) = None -> placed_tiles s = ∅).
Proof.
  unfold rebuild_structure_mesh.
  pose proof (rebuild_fold (elements (placed_tiles (set_master_object None s)))
                ([], set_master_object None s)) as H.
  destruct (foldl _ _ _) as [objs s1]. cbn [fst snd] in H.
  destruct H as (I1 & I2 & I3 & I4 & I5).
  change (placed_tiles (set_master_object None s)) with (placed_tiles s) in *.
  destruct objs as [|first objs].
  - repeat split; try assumption. intros _.
    apply leibniz_equiv, elements_empty_inv.
    destruct (elements (placed_tiles s)); [reflexivity | discriminate].
  - destruct (1 <? length (first :: objs))%nat; repeat split;
      try assumption; discriminate.
Qed.

Lemma delete_inv (s : Session) : ledger_inv s -> ledger_inv (delete s).
Proof.
  intros [H1 H2]. unfold delete_tile_at_current_position.
  destruct (decide (current_key s ∈ placed_tiles s)) as [Hin|]; [|now split].
  destruct (store_undo_snapshot_spec s)
    as (_ & Hpl & Hmo & d & e & [Hh Hp] & _ & _).
  remember (store_undo_snapshot s) as s1 eqn:E1. clear E1.
  destruct (rebuild_spec (set_placed_tiles (placed_tiles s1 ∖ {[current_key s]}) s1))
    as (R1 & R2 & R3 & R4).
  split; cbn.
  - intros Hm. rewrite R1. apply R4. exact Hm.
  - rewrite R2, R3. cbn. rewrite Hh, Hp, !length_drop, !length_app. cbn. lia.
Qed.

Lemma change_tile_size_inv (direction : Z) (s : Session) :
  ledger_inv s -> ledger_inv (change_tile_size cos sin direction s).
Proof.
  intros H. unfold change_tile_size.
  destruct (_ =? _)%nat; [exact H|].
  eapply ledger_inv_ext; [..|exact H]; reflexivity.
Qed.

Lemma finish_move_inv (precision_mode : bool) (loc : Vector) (s : Session) :
  ledger_inv s -> ledger_inv (finish_move cos sin precision_mode loc s).
Proof.
  intros H. unfold finish_move. cbn.
  destruct (auto_mode s).
  - apply place_inv_any. eapply ledger_inv_ext; [..|exact H]; reflexivity.
  - eapply ledger_inv_ext; [..|exact H]; reflexivity.
Qed.

Lemma update_preview_from_mouse_inv (ctx : Context) (e : Event)
  (s : Session) :
  ledger_inv s -> ledger_inv (update_preview_from_mouse cos sin ctx e s).
Proof.
  intros H. unfold update_preview_from_mouse.
  destruct (get_view_relative_vectors ctx) as [forward_vec right_vec].
  repeat match goal with
         | |- context [match ?o with Some _ => _ | None => _ end] =>
             destruct o as [[? ?]|]
         | |- context [match ?o with Some _ => _ | None => _ end] =>
             destruct o
         end;
    try exact H;
    repeat match goal with
           | |- ledger_inv (if ?b then _ else _) => destruct b
           end;
    try exact H;
    first [ apply place_inv_any; eapply ledger_inv_ext; [..|exact H]; reflexivity
          | eapply ledger_inv_ext; [..|exact H]; reflexivity ].
Qed.

Ltac ledger_step H :=
  first
    [ exact H
    | apply place_inv_any; exact H
    | apply delete_inv; exact H
    | apply undo_inv; exact H
    | apply finish_move_inv; exact H
    | apply change_tile_size_inv; exact H
    | apply update_preview_from_mouse_inv; exact H
    | eapply ledger_inv_ext; [..|exact H]; reflexivity ].

(** Every event leaves the invariant in place. *)
Lemma modal_inv (ctx : Context) (e : Event) (s : Session) :
  ledger_inv s -> ledger_inv (snd (modal cos sin ctx e s)).
Proof.
  intros H. unfold modal.
  destruct (get_view_relative_vectors ctx) as [forward_vec right_vec].
  destruct (type e), (value e); cbn [snd];
    repeat match goal with
           | |- context [match find ?f ?l with _ => _ end] =>
               destruct (find f l) as [[? ?]|]
           | |- context [if ?b then _ else _] => destruct b
           end;
    cbn [snd]; ledger_step H.
Qed.

Lemma run_events_inv (evs : list (Context * Event)) (s : Session) :
  ledger_inv s -> ledger_inv (run_events cos sin evs s).
Proof.
  revert s. induction evs as [|[ctx e] evs IH]; intros s H; [exact H|].
  cbn. apply IH. now apply modal_inv.
Qed.

(** *** The cap, where it is enforced *)

(** With a structure in place, a push onto a log of at most twenty entries
    leaves a log of at most twenty entries. *)
Lemma store_undo_snapshot_cap (s : Session) :
  master_object s <> None -> (length (undo_history s) <= 20)%nat ->
  (length (undo_history (store_undo_snapshot s)) <= 20)%nat.
Proof.
  intros Hm Hlen. unfold store_undo_snapshot.
  destruct (master_object s) as [master|]; [|contradiction].
  cbn -[Nat.ltb].
  destruct (20 <? length (undo_history s ++ [Some (fresh_mesh (meshes s))]))%nat
    eqn:Hlt.
  - destruct (undo_history s ++ [Some (fresh_mesh (meshes s))])
      as [|old rest] eqn:Hh.
    + cbn. lia.
    + assert (Hl : length (old :: rest) = S (length (undo_history s))).
      { rewrite <- Hh, length_app. cbn. lia. }
      cbn in Hl. destruct old; cbn; lia.
  - apply Nat.ltb_ge in Hlt. exact Hlt.
Qed.

Lemma place_cap (s : Session) :
  current_key s ∉ placed_tiles s ->
  master_object s <> None -> (length (undo_history s) <= 20)%nat ->
  (length (undo_history (snd (place s))) <= 20)%nat.
Proof.
  intros Hfree Hm Hlen. unfold place_tile_at_current_position.
  rewrite decide_False by exact Hfree.
  pose proof (store_undo_snapshot_cap s Hm Hlen) as Hcap.
  remember (store_undo_snapshot s) as s' eqn:Es. clear Es.
  unfold new_tile_mesh. cbn -[get_green_face_world_position pos_key].
  destruct (master_object s'); exact Hcap.
Qed.

Lemma run_commits_cap (poses : list Pose) (s : Session) :
  master_object s <> None -> (length (undo_history s) <= 20)%nat ->
  fst (run_commits cos sin poses s) = repeat true (length poses) ->
  (length (undo_history (snd (run_commits cos sin poses s))) <= 20)%nat.
Proof.
  revert s. induction poses as [|p rest IH]; intros s Hm Hlen Hok.
  - exact Hlen.
  - destruct (run_commits_cons p rest s) as [Hf Hs].
    rewrite Hs. rewrite Hf in Hok. cbn [length repeat] in Hok.
    injection Hok as Hok1 Hok2.
    pose proof (place_true _ Hok1) as Hfree.
    destruct (place_free _ Hfree) as (_ & _ & _ & Hmo & _).
    apply IH; [exact Hmo | | exact Hok2].
    now apply place_cap.
Qed.

(** A successful undo takes exactly one entry off the log. *)
Lemma undo_true_length (s : Session) :
  fst (undo_placement s) = true ->
  S (length (undo_history (snd (undo_placement s)))) = length (undo_history s).
Proof.
  unfold undo_placement.
  destruct (last (undo_history s)) as [lm|] eqn:El; [|discriminate].
  apply last_Some in El as [h Eh]. cbn.
  destruct (last (undo_positions s)) as [lp|]; [|discriminate].
  destruct lm as [m|]; [destruct (master_object s)|]; cbn;
    try discriminate; intros _;
    rewrite Eh, removelast_last, length_app; cbn; lia.
Qed.

Lemma run_undos_length (n : nat) (s : Session) :
  fst (run_undos n s) = repeat true n ->
  (length (undo_history (snd (run_undos n s))) + n)%nat
  = length (undo_history s).
Proof.
  revert s. induction n as [|n IH]; intros s Hok; [cbn; lia|].
  cbn [run_undos] in *.
  pose proof (undo_true_length s) as Hu.
  destruct (undo_placement s) as [ok s1].
  specialize (IH s1).
  destruct (run_undos n s1) as [oks s2]. cbn [fst snd repeat] in *.
  injection Hok as Hok1 Hoks. specialize (Hu Hok1). specialize (IH Hoks).
  lia.
Qed.

(** X24. Undo inverts up to twenty commits, and in a new session no more.
    In whatever state a sequence of events has left the session, k
    successful commits (k at most 20) followed by k undos succeed and give
    back the key set from before the commits. In a new session, after 21
    successful commits, 20 undos lead to the key set just after the first
    commit, which is not empty, and there is nothing left to undo. *)
Theorem undo_inverts_commits (evs : list (Context * Event))
  (cursor_loc : Vector) (inverted : nat) (store : gmap mesh_id Mesh) :
  (forall poses : list Pose,
     let s := run_events cos sin evs (invoke cursor_loc inverted store) in
     let s' := snd (run_commits cos sin poses s) in
     (length poses <= 20)%nat ->
     fst (run_commits cos sin poses s) = repeat true (length poses) ->
     fst (run_undos (length poses) s') = repeat true (length poses) /\
     placed_tiles (snd (run_undos (length poses) s')) = placed_tiles s) /\
  (forall (p : Pose) (rest : list Pose),
     let s := invoke cursor_loc inverted store in
     let s1 := snd (place (at_pose p s)) in
     let s21 := snd (run_commits cos sin (p :: rest) s) in
     length rest = 20%nat ->
     fst (run_commits cos sin (p :: rest) s) = repeat true 21 ->
     fst (run_undos 20 s21) = repeat true 20 /\
     placed_tiles (snd (run_undos 20 s21)) = placed_tiles s1 /\
     placed_tiles s1 = {[current_key (at_pose p s)]} /\
     undo_placement (snd (run_undos 20 s21))
     = (false, snd (run_undos 20 s21))).
Proof.
  split.
  - intros poses s s' Hlen Hok.
    assert (Hinv : ledger_inv s) by apply run_events_inv, invoke_inv.
    destruct (commits_then_undos poses s Hinv Hlen Hok) as (H1 & H2 & _).
    now split.
  - intros p rest s s1 s21 Hlen Hok.
    assert (Hinv0 : ledger_inv s) by apply invoke_inv.
    assert (Hh0 : undo_history s = []) by reflexivity.
    assert (Hp0 : placed_tiles s = ∅) by reflexivity.
    clearbody s.
    destruct (run_commits_cons p rest s) as [Hf Hs].
    subst s21. rewrite Hs. rewrite Hf in Hok. clear Hf Hs.
    change (repeat true 21) with (true :: repeat true 20) in Hok.
    apply cons_eq in Hok as [Hok1 Hok2].
    pose proof (place_true _ Hok1) as Hfree.
    destruct (place_free _ Hfree)
      as (_ & _ & Hpl & Hmo & d & e & [Hh _] & _ & Hd).
    pose proof (place_inv _ Hfree Hinv0) as Hinv1.
    change (snd (place (at_pose p s))) with s1
      in Hpl, Hmo, Hh, Hinv1, Hok2 |- *.
    clearbody s1.
    change (undo_history (at_pose p s)) with (undo_history s) in Hh.
    change (placed_tiles (at_pose p s)) with (placed_tiles s) in Hpl.
    rewrite Hh0 in Hh. rewrite Hp0 in Hpl.
    assert (Hlen1 : (length (undo_history s1) <= 20)%nat).
    { rewrite Hh, length_drop. cbn [app length]. lia. }
    rewrite <- Hlen in Hok2 |- *.
    destruct (commits_then_undos rest s1 Hinv1 ltac:(lia) Hok2)
      as (H1 & H2 & _).
    pose proof (run_commits_cap rest s1 Hmo Hlen1 Hok2) as Hcap.
    pose proof (run_undos_length _ _ H1) as Hul.
    split; [exact H1|]. split; [exact H2|]. split.
    + rewrite Hpl. apply union_empty_r_L.
    + apply undo_nothing. apply length_zero_iff_nil. lia.
Qed.

(** C1. Placement is exactly-once. A commit at a pose whose key is not yet
    in the placed-tile set succeeds and inserts that key; the pose is left as
    it was, and every further commit there returns false and changes nothing:
    the key set, the undo log and the structure are the same, no snapshot is
    pushed. *)
Theorem placement_exactly_once (s : Session) (n : nat) :
  current_key s ∉ placed_tiles s ->
  fst (place s) = true /\
  placed_tiles (snd (place s)) = {[current_key s]} ∪ placed_tiles s /\
  current_key (snd (place s)) = current_key s /\
  commit_n cos sin n (snd (place s)) = (repeat false n, snd (place s)).
Proof.
  intros Hfree.
  destruct (place_free s Hfree) as (Hok & Hpose & Hpl & _).
  pose proof (same_pose_key _ _ Hpose) as Hkey.
  repeat split; try assumption.
  assert (Hin : current_key (snd (place s)) ∈ placed_tiles (snd (place s))).
  { rewrite Hkey, Hpl. apply elem_of_union_l, elem_of_singleton. reflexivity. }
  remember (snd (place s)) as s1 eqn:E. clear - Hin.
  induction n as [|n IH]; [reflexivity|].
  cbn [commit_n repeat]. rewrite (place_occupied s1 Hin), IH. reflexivity.
Qed.

(** C10. Deleting at an unoccupied pose does nothing at all: when the key of
    the current pose, the one a commit would use, is not in the placed-tile
    set, the delete operation and the key that triggers it return the state
    they were given; no key is removed, no snapshot is pushed and the
    structure is not rebuilt. *)
Theorem delete_unoccupied_is_noop (ctx : Context) (sh ct : bool) (mx my : Z)
  (s : Session) :
  current_key s ∉ placed_tiles s ->
  delete s = s /\
  modal cos sin ctx (event K_C PRESS sh ct mx my) s = (RUNNING_MODAL, s).
Proof.
  intros Hfree.
  assert (Hd : delete s = s).
  { unfold delete_tile_at_current_position.
    now rewrite decide_False by exact Hfree. }
  split; [exact Hd|].
  unfold modal. cbn [type value shift].
  destruct (get_view_relative_vectors ctx). now rewrite Hd.
Qed.

End Ledger.

(** *** Concrete runs *)

Lemma placement_exactly_once_witness :
  (pos_key cos_eighth sin_eighth (invoke (vec 0 0 0) 0 ∅)
     ∉ placed_tiles (invoke (vec 0 0 0) 0 ∅)) /\
  commit_n cos_eighth sin_eighth 3
    (snd (place_tile_at_current_position cos_eighth sin_eighth
            (invoke (vec 0 0 0) 0 ∅)))
  = (repeat false 3,
     snd (place_tile_at_current_position cos_eighth sin_eighth
            (invoke (vec 0 0 0) 0 ∅))).
Proof.
  split; [apply not_elem_of_empty|].
  apply (placement_exactly_once cos_eighth sin_eighth
           (invoke (vec 0 0 0) 0 ∅) 3).
  apply not_elem_of_empty.
Defined.

Lemma delete_unoccupied_is_noop_witness :
  (pos_key cos_eighth sin_eighth (invoke (vec 0 0 0) 0 ∅)
     ∉ placed_tiles (invoke (vec 0 0 0) 0 ∅)) /\
  delete_tile_at_current_position cos_eighth sin_eighth
    (invoke (vec 0 0 0) 0 ∅)
  = invoke (vec 0 0 0) 0 ∅.
Proof.
  split; [apply not_elem_of_empty|].
  apply (delete_unoccupied_is_noop cos_eighth sin_eighth (context None None)
           false false 0 0 (invoke (vec 0 0 0) 0 ∅)).
  apply not_elem_of_empty.
Defined.

Lemma undo_inverts_commits_witness :
  placed_tiles
    (snd (run_undos 2
            (snd (run_commits cos_eighth sin_eighth (poses_along_x 5 2)
                    (run_events cos_eighth sin_eighth (place_delete_rounds 1)
                       new_session)))))
  = placed_tiles
      (run_events cos_eighth sin_eighth (place_delete_rounds 1) new_session)
  /\
  undo_placement
    (snd (run_undos 20
            (snd (run_commits cos_eighth sin_eighth (poses_along_x 0 21)
                    new_session))))
  = (false,
     snd (run_undos 20
            (snd (run_commits cos_eighth sin_eighth (poses_along_x 0 21)
                    new_session)))).
Proof.
  split.
  - apply (proj1 (undo_inverts_commits cos_eighth sin_eighth
                    (place_delete_rounds 1) (vec 0 0 0) 0 ∅)
             (poses_along_x 5 2)).
    + cbn. lia.
    + vm_compute. reflexivity.
  - apply (proj2 (undo_inverts_commits cos_eighth sin_eighth
                    [] (vec 0 0 0) 0 ∅)
             (pose (vec 0 0 0) (euler 0 0 0) 2 false)
             (tail (poses_along_x 0 21))).
    + reflexivity.
    + vm_compute. reflexivity.
Defined.

(** C2, at the input where the code leaves it. The claim has at most the
    twenty most recent operations reversible. Ten rounds of placing a tile and
    deleting it again leave twenty snapshots and no structure; of the 21
    commits that follow (SPACE, then twenty times D and SPACE), the first is
    logged by the branch without the cap, and the log holds 21 entries from
    then on. All 21 commits succeed, and 21 undos in a row succeed and lead
    back to the empty key set from before the first of them. *)
Theorem undo_reverses_21_commits :
  let s20 :=
    run_events cos_eighth sin_eighth (place_delete_rounds 10) new_session in
  let s41 := run_events cos_eighth sin_eighth commits_21 s20 in
  placed_tiles s20 = ∅ /\
  length (undo_history s20) = 20%nat /\
  size (placed_tiles s41) = 21%nat /\
  length (undo_history s41) = 21%nat /\
  fst (run_undos 21 s41) = repeat true 21 /\
  placed_tiles (snd (run_undos 21 s41)) = ∅.
Proof. vm_compute. repeat split. Qed.

(** C3, at the input where the code leaves the bound. Ten rounds of placing
    a tile and deleting it again fill the log with twenty snapshots and end
    without a structure; the push of the next commit takes the branch that
    has no cap, and the log is twenty-one entries long. *)
Theorem undo_log_exceeds_cap :
  let s20 :=
    run_events cos_eighth sin_eighth (place_delete_rounds 10) new_session in
  length (undo_history s20) = 20%nat /\
  master_object s20 = None /\
  length (undo_history (store_undo_snapshot s20)) = 21%nat /\
  fst (place_tile_at_current_position cos_eighth sin_eighth s20) = true /\
  length (undo_history
            (snd (place_tile_at_current_position cos_eighth sin_eighth s20)))
  = 21%nat.
Proof. vm_compute. repeat split. Qed.

(** ** Moves, rotations and size changes *)

Section Moves.

Variables cos sin : Q -> Q.

Lemma place_preview (s : Session) :
  preview (snd (place_tile_at_current_position cos sin s)) = preview s.
Proof.
  destruct (decide (pos_key cos sin s ∈ placed_tiles s)) as [Hin | Hout].
  - now rewrite (place_occupied cos sin s Hin).
  - destruct (place_free cos sin s Hout) as (_ & Hpose & _). apply Hpose.
Qed.

Lemma finish_move_location (precision_mode : bool) (loc : Vector)
  (s : Session) :
  location (preview (finish_move cos sin precision_mode loc s))
  = snap_move precision_mode s loc.
Proof.
  unfold finish_move. cbn. destruct (auto_mode s); [|reflexivity].
  now rewrite place_preview.
Qed.

Lemma single_axis_flat (h : Vector) : vz (single_axis h) = 0.
Proof. unfold single_axis. now destruct (Qlt_bool _ _). Qed.

Lemma view_vectors_flat (ctx : Context) :
  vz (fst (get_view_relative_vectors ctx)) = 0 /\
  vz (snd (get_view_relative_vectors ctx)) = 0.
Proof.
  unfold get_view_relative_vectors.
  destruct (region_data ctx) as [[[m|]]|]; cbn [fst snd];
    split; try reflexivity; apply single_axis_flat.
Qed.

Lemma nearest_arg (g x x' y : Q) :
  x == x' -> nearest_multiple g x y -> nearest_multiple g x' y.
Proof.
  intros Hx [Hn Hm]. split; [exact Hn|].
  intros m. rewrite <- Hx. apply Hm.
Qed.

(** A movement key ends in [snap_move] applied to the preview location
    displaced by the step of the active mode. *)
Lemma modal_move_location (ctx : Context) (k : EventType) (sh ct : bool)
  (mx my : Z) (s : Session) :
  k ∈ horizontal_keys ++ vertical_keys ->
  exists L,
    location (preview (snd (modal cos sin ctx (event k PRESS sh ct mx my) s)))
    = snap_move sh s L /\
    veq L (vadd (location (preview s))
             (move_delta k (fst (get_view_relative_vectors ctx))
                (snd (get_view_relative_vectors ctx)) (step_of sh s))).
Proof.
  intros Hk. destruct (view_vectors_flat ctx) as [Hf Hr].
  unfold modal. cbn [type value shift ctrl].
  destruct (get_view_relative_vectors ctx) as [fwd right].
  cbn [fst snd] in *.
  unfold horizontal_keys, vertical_keys in Hk. cbn [app] in Hk.
  repeat (apply elem_of_cons in Hk as [-> | Hk]);
    try (now apply elem_of_nil in Hk);
    cbn [snd]; rewrite finish_move_location;
    eexists; (split; [reflexivity|]);
    unfold veq, in_place, move_delta, vadd, vsub, vscale; cbn [vx vy vz];
    rewrite ?Hf, ?Hr; repeat split; ring.
Qed.

(** C8. A move goes by 0.1 units with Shift held (Precision), by 0.5 units
    in Normal mode whatever the tile size, and by the current tile size in
    Fast mode; vertical moves use the same step as horizontal ones. In
    Precision and in Fast mode the preview centre changes by exactly the step
    vector, unsnapped; in Normal mode X and Y then land on the half-unit
    grid. *)
Theorem move_step_sizes (ctx : Context) (k : EventType) (ct : bool)
  (mx my : Z) (s : Session) :
  let fwd := fst (get_view_relative_vectors ctx) in
  let right := snd (get_view_relative_vectors ctx) in
  let loc := location (preview s) in
  let moved sh :=
    location (preview (snd (modal cos sin ctx (event k PRESS sh ct mx my) s))) in
  k ∈ horizontal_keys ++ vertical_keys ->
  veq (moved true) (vadd loc (move_delta k fwd right (1 # 10))) /\
  (movement_speed s == 1 ->
   let target := vadd loc (move_delta k fwd right (1 # 2)) in
   nearest_multiple (1 # 2) (vx target) (vx (moved false)) /\
   nearest_multiple (1 # 2) (vy target) (vy (moved false)) /\
   vz (moved false) == vz target) /\
  (~ movement_speed s == 1 ->
   veq (moved false)
     (vadd loc (move_delta k fwd right (current_tile_size s)))).
Proof.
  intros fwd right loc moved Hk. subst moved. cbv beta.
  destruct (modal_move_location ctx k true ct mx my s Hk) as (Lp & Ep & Vp).
  destruct (modal_move_location ctx k false ct mx my s Hk) as (L & E & V).
  rewrite Ep, E. clear Ep E. fold fwd right loc in Vp, V.
  unfold snap_move, step_of in *. split; [exact Vp | split].
  - intros Hn. rewrite (Qeq_bool_true _ _ Hn) in *.
    destruct V as (Vx & Vy & Vz). cbn [vx vy vz].
    split; [|split].
    + apply (nearest_arg _ (vx L)); [exact Vx | apply nearest_half].
    + apply (nearest_arg _ (vy L)); [exact Vy | apply nearest_half].
    + exact Vz.
  - intros Hn. rewrite (Qeq_bool_false _ _ Hn) in *. exact V.
Qed.

End Moves.

Lemma move_step_sizes_witness :
  K_W ∈ horizontal_keys ++ vertical_keys /\
  ~ movement_speed fast_unit_session == 1 /\
  veq (location
         (preview
            (snd (modal cos_eighth sin_eighth (context None None)
                    (event K_W PRESS false false 0 0) fast_unit_session))))
      (vadd (location (preview fast_unit_session))
         (vscale (vec 0 1 0) (current_tile_size fast_unit_session))).
Proof.
  split; [apply list_elem_of_here|].
  split; [discriminate|].
  exact (proj2 (proj2 (move_step_sizes cos_eighth sin_eighth (context None None)
                         K_W false 0 0 fast_unit_session
                         (list_elem_of_here _ _)))
           ltac:(discriminate)).
Defined.

Section Orientation.

Variables cos sin : Q -> Q.

Lemma preset_spin_free (i : nat) : ez (face_rotation i) = 0.
Proof. do 6 (destruct i as [|i]; [reflexivity|]). now destruct i. Qed.

(** C5, as the code has it. A press of R adds 45 degrees (minus 45 with
    Ctrl) to the Z angle of the preview's current rotation and leaves the
    X and Y angles alone. A cycle with TAB or a face selection sets the
    rotation to the preset of the new face and to nothing else: the Z angle
    is the preset's, which is 0 for all six, so the accumulated spin is
    dropped. *)
Theorem preset_change_discards_spin (ctx : Context) (sh ct : bool)
  (mx my : Z) (s : Session) :
  let rot k c :=
    rotation_euler
      (preview (snd (modal cos sin ctx (event k PRESS sh c mx my) s))) in
  rot K_R false = layered (rotation_euler (preview s)) (radians 45) /\
  rot K_R true = layered (rotation_euler (preview s)) (radians (-45)) /\
  rot TAB ct = face_rotation (Py.mod_ (Z.of_nat (rotation_state s) + 1) 6) /\
  Forall (fun kn => rot (fst kn) ct = face_rotation (snd kn)) face_keys /\
  (forall i, ez (face_rotation i) = 0).
Proof.
  intros rot. subst rot. cbv beta. unfold modal. cbn [type value shift ctrl].
  destruct (get_view_relative_vectors ctx) as [fwd right].
  repeat split; try reflexivity.
  - unfold face_keys. repeat constructor.
  - apply preset_spin_free.
Qed.

(** With the preview unrotated about X and Y (the Bottom preset, whatever
    the spin about Z) a size change keeps the placement face where it is. *)
Lemma change_tile_size_keeps_unrotated_face (direction : Z) (s : Session) :
  ex (rotation_euler (preview s)) = 0 ->
  ey (rotation_euler (preview s)) = 0 ->
  cos 0 == 1 ->
  vz (get_green_face_world_position cos sin
        (change_tile_size cos sin direction s))
  == vz (get_green_face_world_position cos sin s).
Proof.
  intros Hx Hy Hc. unfold change_tile_size.
  destruct (_ =? _)%nat; [reflexivity|].
  remember (vz (get_green_face_world_position cos sin s)) as preserve_height.
  unfold get_green_face_world_position, to_matrix, matvec, vdot, vadd.
  cbn -[Py.mod_ nth TILE_SIZES]. rewrite Hx, Hy.
  destruct (Qeq_bool (movement_speed s) 1); cbn [vz]; rewrite Hc; field.
Qed.

End Orientation.

(** C5, as the specification states it, at one input: after one spin on the
    Bottom preset the cycle to Top leaves the Z angle at 0, not at the 45
    degrees a spin carried over would give. *)
Lemma spin_not_carried_over :
  rotation_euler (preview spun_session)
  = layered (face_rotation 0) (radians 45) /\
  rotation_state spun_then_cycled = 1%nat /\
  ~ ez (rotation_euler (preview spun_then_cycled))
    == ez (layered (face_rotation 1) (radians 45)).
Proof. repeat split. vm_compute. discriminate. Qed.

(** C4, at the input where the code leaves the claim. On the Top preset
    with the 2.0 tile at the origin the placement face is at height 1; after
    the change to the 4.0 tile the centre is at 1 + 2 = 3 and the placement
    face at height 5. *)
Theorem change_tile_size_moves_top_face :
  vz (get_green_face_world_position cos_eighth sin_eighth top_session) == 1 /\
  vz (location
        (preview (run_events cos_eighth sin_eighth [key_press K_T]
                    top_session))) == 3 /\
  vz (get_green_face_world_position cos_eighth sin_eighth
        (run_events cos_eighth sin_eighth [key_press K_T] top_session)) == 5.
Proof. vm_compute. repeat split. Qed.

(** * Further properties of the code *)

(** ** The Fast-mode grid and the horizontal snap *)

Lemma nearest_double (c : Q) : nearest_multiple 2 c (rnd (c / 2) * 2).
Proof.
  split.
  - exists (Py.round (c / 2)). reflexivity.
  - intros m.
    apply (Qabs_le_scale (1 # 2) (rnd (c / 2) - c / 2) (inject_Z m - c / 2)).
    + reflexivity.
    + field.
    + field.
    + apply round_nearest.
Qed.

Lemma nearest_half_offset (c : Q) :
  nearest_offset 1 (1 # 2) c (rnd (c - (1 # 2)) + (1 # 2)).
Proof.
  split.
  - exists (Py.round (c - (1 # 2))). unfold rnd. ring.
  - intros m.
    assert (E1 : rnd (c - (1 # 2)) + (1 # 2) - c
                 == rnd (c - (1 # 2)) - (c - (1 # 2))) by ring.
    assert (E2 : inject_Z m * 1 + (1 # 2) - c
                 == inject_Z m - (c - (1 # 2))) by ring.
    rewrite E1, E2. apply round_nearest.
Qed.

(** X1. In Fast mode (any speed other than 1.0) the snap function rounds
    every coordinate to the footprint grid of the tile: the quarter grid for
    size 0.5, the unit grid shifted by one half for size 1.0, the unit grid
    for size 2.0 and the even integers for size 4.0. *)
Theorem snap_to_grid_fast_grid (s : Session) (p : Vector) :
  ~ movement_speed s == 1 ->
  (current_tile_size s == 1 # 2 -> vnearest (1 # 4) p (snap_to_grid s p)) /\
  (current_tile_size s == 1 ->
   nearest_offset 1 (1 # 2) (vx p) (vx (snap_to_grid s p)) /\
   nearest_offset 1 (1 # 2) (vy p) (vy (snap_to_grid s p)) /\
   nearest_offset 1 (1 # 2) (vz p) (vz (snap_to_grid s p))) /\
  (current_tile_size s == 2 -> vnearest 1 p (snap_to_grid s p)) /\
  (current_tile_size s == 4 -> vnearest 2 p (snap_to_grid s p)).
Proof.
  intros Hspeed. unfold snap_to_grid.
  rewrite (Qeq_bool_false _ _ Hspeed).
  split; [|split; [|split]]; intros H.
  - rewrite (Qeq_bool_true _ _ H).
    split; [|split]; cbn [vx vy vz]; apply nearest_quarter.
  - rewrite (Qeq_bool_false _ (1 # 2)) by (rewrite H; discriminate).
    rewrite (Qeq_bool_true _ _ H).
    split; [|split]; cbn [vx vy vz]; apply nearest_half_offset.
  - rewrite (Qeq_bool_false _ (1 # 2)) by (rewrite H; discriminate).
    rewrite (Qeq_bool_false _ 1) by (rewrite H; discriminate).
    rewrite (Qeq_bool_true _ _ H).
    split; [|split]; cbn [vx vy vz]; apply nearest_unit.
  - rewrite (Qeq_bool_false _ (1 # 2)) by (rewrite H; discriminate).
    rewrite (Qeq_bool_false _ 1) by (rewrite H; discriminate).
    rewrite (Qeq_bool_false _ 2) by (rewrite H; discriminate).
    split; [|split]; cbn [vx vy vz]; apply nearest_double.
Qed.

Lemma snap_to_grid_fast_grid_witness :
  ~ movement_speed fast_unit_session == 1 /\
  current_tile_size fast_unit_session == 1 /\
  nearest_offset 1 (1 # 2) (12 # 10)
    (vx (snap_to_grid fast_unit_session (vec (12 # 10) 0 0))).
Proof.
  split; [discriminate|]. split; [reflexivity|].
  apply (proj1 (proj2 (snap_to_grid_fast_grid fast_unit_session
                         (vec (12 # 10) 0 0) ltac:(discriminate)))).
  reflexivity.
Defined.

(** X2. The horizontal-only snap is the full snap on X and Y and the
    identity on Z, for every size and speed, and snapping its result again
    changes nothing. *)
Theorem snap_to_grid_horizontal_only_spec (s : Session) (p : Vector) :
  vx (snap_to_grid_horizontal_only s p) = vx (snap_to_grid s p) /\
  vy (snap_to_grid_horizontal_only s p) = vy (snap_to_grid s p) /\
  vz (snap_to_grid_horizontal_only s p) = vz p /\
  snap_to_grid_horizontal_only s (snap_to_grid_horizontal_only s p)
  = snap_to_grid_horizontal_only s p.
Proof.
  unfold snap_to_grid_horizontal_only, snap_to_grid.
  destruct (Qeq_bool (movement_speed s) 1),
           (Qeq_bool (current_tile_size s) (1 # 2)),
           (Qeq_bool (current_tile_size s) 1),
           (Qeq_bool (current_tile_size s) 2); cbn [vx vy vz];
    rewrite ?rnd_scaled, ?rnd_rnd, ?rnd_offset, ?rnd_doubled by discriminate;
    repeat split.
Qed.

(** ** The view axes as closest cardinal directions *)

Lemma Qlt_bool_iff (a b : Q) : Qlt_bool a b = true <-> a < b.
Proof.
  unfold Qlt_bool. rewrite negb_true_iff. split.
  - intros H. apply Qnot_le_lt. intros Hle.
    apply Qle_bool_iff in Hle. congruence.
  - intros H. destruct (Qle_bool b a) eqn:E; [|reflexivity].
    apply Qle_bool_iff in E. apply Qlt_not_le in H. contradiction.
Qed.

Lemma Qlt_bool_false_iff (a b : Q) : Qlt_bool a b = false <-> b <= a.
Proof.
  unfold Qlt_bool. rewrite negb_false_iff. apply Qle_bool_iff.
Qed.

Lemma Qabs_cases (x : Q) :
  (0 <= x /\ Qabs x == x) \/ (x <= 0 /\ Qabs x == - x).
Proof.
  destruct (Qlt_le_dec x 0) as [H | H].
  - right. split; [lra|]. apply Qabs_neg. lra.
  - left. split; [exact H|]. now apply Qabs_pos.
Qed.

(** The axis [single_axis] picks has the largest projection of the flattened
    direction among the four cardinal axes. *)
Lemma single_axis_closest (h c : Vector) :
  c ∈ cardinals ->
  vx c * vx h + vy c * vy h
  <= vx (single_axis h) * vx h + vy (single_axis h) * vy h.
Proof.
  intros Hc. unfold single_axis.
  destruct (Qabs_cases (vx h)) as [[Hx Ex] | [Hx Ex]];
    destruct (Qabs_cases (vy h)) as [[Hy Ey] | [Hy Ey]];
    destruct (Qlt_bool (Qabs (vy h)) (Qabs (vx h))) eqn:Hax;
    [apply Qlt_bool_iff in Hax | apply Qlt_bool_false_iff in Hax
    |apply Qlt_bool_iff in Hax | apply Qlt_bool_false_iff in Hax
    |apply Qlt_bool_iff in Hax | apply Qlt_bool_false_iff in Hax
    |apply Qlt_bool_iff in Hax | apply Qlt_bool_false_iff in Hax];
    rewrite Ex, Ey in Hax;
    match goal with
    | |- context [Qlt_bool 0 ?v] =>
        destruct (Qlt_bool 0 v) eqn:Hs;
        [apply Qlt_bool_iff in Hs | apply Qlt_bool_false_iff in Hs]
    end;
    unfold cardinals in Hc;
    repeat (apply elem_of_cons in Hc as [-> | Hc]);
    try (now apply elem_of_nil in Hc);
    cbn [vx vy]; lra.
Qed.

(** X3. With a readable camera the forward and the right axis are the
    closest cardinal directions: no horizontal unit axis has a larger
    projection on the camera's flattened forward (right) direction than the
    axis returned for it. *)
Theorem view_vectors_closest_cardinal (r : option Ray) (m : Matrix) :
  let res :=
    get_view_relative_vectors (context r (Some (region_view (Some m)))) in
  let forward_world := matvec (transposed m) (vec 0 0 (-1)) in
  let right_world := matvec (transposed m) (vec 1 0 0) in
  Forall (fun c =>
            vx c * vx forward_world + vy c * vy forward_world
            <= vx (fst res) * vx forward_world
               + vy (fst res) * vy forward_world) cardinals /\
  Forall (fun c =>
            vx c * vx right_world + vy c * vy right_world
            <= vx (snd res) * vx right_world
               + vy (snd res) * vy right_world) cardinals.
Proof.
  cbv zeta. unfold get_view_relative_vectors. cbn [region_data view_matrix fst snd].
  split; apply Forall_forall; intros c Hc;
    match goal with
    | |- context [single_axis ?h] =>
        exact (single_axis_closest h c Hc)
    end.
Qed.

(** ** The controls *)

Section Controls.

Variables cos sin : Q -> Q.

Lemma same_controls_refl (s : Session) : same_controls s s.
Proof. repeat split. Qed.

Lemma same_controls_trans (s1 s2 s3 : Session) :
  same_controls s1 s2 -> same_controls s2 s3 -> same_controls s1 s3.
Proof.
  unfold same_controls. intros A B.
  repeat match goal with H : _ /\ _ |- _ => destruct H end.
  repeat split; congruence.
Qed.

Lemma well_formed_ext (s s' : Session) :
  same_controls s s' -> well_formed s -> well_formed s'.
Proof.
  unfold same_controls, well_formed. intros A B.
  repeat match goal with H : _ /\ _ |- _ => destruct H end.
  repeat split; try congruence.
  intros Hi. assert (inverted_mode s = true) by congruence.
  replace (cube_templates_inverted s') with (cube_templates_inverted s).
  auto.
Qed.

Lemma store_undo_snapshot_controls (s : Session) :
  same_controls s (store_undo_snapshot s).
Proof.
  unfold store_undo_snapshot.
  destruct (master_object s) as [master|]; [|repeat split].
  cbn -[Nat.ltb].
  destruct (20 <? _)%nat; [|repeat split].
  destruct (undo_history s ++ _) as [|[m|] rest]; repeat split.
Qed.

Lemma place_controls (s : Session) :
  same_controls s (snd (place_tile_at_current_position cos sin s)).
Proof.
  unfold place_tile_at_current_position.
  destruct (decide _); [apply same_controls_refl|].
  pose proof (store_undo_snapshot_controls s) as H.
  remember (store_undo_snapshot s) as s' eqn:Es. clear Es.
  apply (same_controls_trans _ s'); [exact H|].
  unfold new_tile_mesh. cbn -[get_green_face_world_position pos_key].
  destruct (master_object s'); repeat split.
Qed.

Lemma undo_controls (s : Session) :
  same_controls s (snd (undo_placement s)).
Proof.
  unfold undo_placement.
  destruct (last (undo_history s)) as [[m|]|]; cbn;
    destruct (last (undo_positions s)); cbn;
    try destruct (master_object s); repeat split.
Qed.

Lemma rebuild_fold_controls (keys : list PosKey)
  (acc : list Structure * Session) :
  same_controls (snd acc) (snd (foldl recreate_tile acc keys)).
Proof.
  revert acc. induction keys as [|k keys IH]; intros acc.
  - apply same_controls_refl.
  - cbn [foldl]. apply (same_controls_trans _ (snd (recreate_tile acc k)));
      [repeat split | apply IH].
Qed.

Lemma rebuild_controls (s : Session) :
  same_controls s (rebuild_structure_mesh s).
Proof.
  unfold rebuild_structure_mesh.
  pose proof (rebuild_fold_controls
                (elements (placed_tiles (set_master_object None s)))
                ([], set_master_object None s)) as H.
  destruct (foldl _ _ _) as [objs s1]. cbn [snd] in H.
  apply (same_controls_trans _ s1).
  - apply (same_controls_trans _ (set_master_object None s));
      [repeat split | exact H].
  - destruct objs as [|first objs]; [apply same_controls_refl|].
    destruct (1 <? _)%nat; repeat split.
Qed.

Lemma delete_controls (s : Session) :
  same_controls s (delete_tile_at_current_position cos sin s).
Proof.
  unfold delete_tile_at_current_position.
  destruct (decide _); [|apply same_controls_refl].
  pose proof (store_undo_snapshot_controls s) as H.
  remember (store_undo_snapshot s) as s1 eqn:E1. clear E1.
  apply (same_controls_trans _ s1); [exact H|].
  remember (set_placed_tiles (placed_tiles s1 ∖ {[pos_key cos sin s]}) s1)
    as s2 eqn:E2.
  apply (same_controls_trans _ s2); [subst s2; repeat split|].
  apply (same_controls_trans _ (rebuild_structure_mesh s2));
    [apply rebuild_controls | repeat split].
Qed.

End Controls.

Section ControlInvariant.

Variables cos sin : Q -> Q.

Lemma mod_lt (a : Z) (n : nat) : (0 < n)%nat -> (Py.mod_ a n < n)%nat.
Proof.
  intros Hn. unfold Py.mod_.
  pose proof (Z.mod_pos_bound a (Z.of_nat n) ltac:(lia)). lia.
Qed.

Lemma invoke_well_formed (cursor_loc : Vector) (inverted : nat)
  (store : gmap mesh_id Mesh) : well_formed (invoke cursor_loc inverted store).
Proof.
  unfold well_formed, invoke. cbn.
  repeat split; try lia; try constructor.
Qed.

Lemma change_tile_size_well_formed (direction : Z) (s : Session) :
  well_formed s -> well_formed (change_tile_size cos sin direction s).
Proof.
  intros H. unfold change_tile_size.
  destruct (_ =? _)%nat; [exact H|].
  destruct H as (H1 & H2 & H3 & H4 & H5 & H6).
  unfold well_formed. cbn -[Py.mod_ nth TILE_SIZES].
  repeat split; try assumption.
  destruct (0 <? direction)%Z; apply (mod_lt _ 4); lia.
Qed.

Lemma apply_preset_well_formed (face_index : nat) (s : Session) :
  (face_index < 6)%nat -> well_formed s ->
  well_formed (apply_preset face_index s).
Proof.
  intros Hi (H1 & H2 & H3 & H4 & H5 & H6).
  unfold well_formed, apply_preset. cbn. repeat split; assumption.
Qed.

Lemma finish_move_well_formed (precision_mode : bool) (loc : Vector)
  (s : Session) :
  well_formed s -> well_formed (finish_move cos sin precision_mode loc s).
Proof.
  intros (H1 & H2 & H3 & H4 & H5 & H6). unfold finish_move.
  match goal with
  | |- well_formed (if _ then snd (_ _ _ ?t) else _) =>
      assert (Ht : well_formed t) by (repeat split; assumption)
  end.
  cbn [auto_mode set_last_placed_position set_base_location set_preview].
  destruct (auto_mode s); [|exact Ht].
  eapply well_formed_ext; [apply place_controls | exact Ht].
Qed.

Lemma update_preview_from_mouse_well_formed (ctx : Context) (e : Event)
  (s : Session) :
  well_formed s -> well_formed (update_preview_from_mouse cos sin ctx e s).
Proof.
  intros H. pose proof H as (H1 & H2 & H3 & H4 & H5 & H6).
  unfold update_preview_from_mouse.
  destruct (get_view_relative_vectors ctx) as [forward_vec right_vec].
  destruct (region ctx) as [[ray_origin view_vector]|]; [|exact H].
  destruct (region_data ctx); [|exact H].
  destruct (shift e).
  - destruct (last_mouse s) as [[lx ly]|];
      [|repeat split; assumption].
    destruct (_ && _)%bool; [exact H|].
    match goal with
    | |- well_formed (if _ then snd (_ _ _ ?t) else _) =>
        assert (Ht : well_formed t) by (repeat split; assumption)
    end.
    cbn [auto_mode set_last_placed_position set_base_location set_preview
         set_last_mouse].
    destruct (auto_mode s); [|exact Ht].
    eapply well_formed_ext; [apply place_controls | exact Ht].
  - destruct (Qlt_bool _ _); [|exact H].
    match goal with
    | |- well_formed (if _ then snd (_ _ _ ?t) else _) =>
        assert (Ht : well_formed t) by (repeat split; assumption)
    end.
    destruct (_ && _)%bool; [|exact Ht].
    eapply well_formed_ext; [apply place_controls | exact Ht].
Qed.

Ltac controls_step H :=
  first
    [ exact H
    | eapply well_formed_ext; [apply place_controls | exact H]
    | eapply well_formed_ext; [apply delete_controls | exact H]
    | eapply well_formed_ext; [apply undo_controls | exact H]
    | apply finish_move_well_formed; exact H
    | apply change_tile_size_well_formed; exact H
    | apply update_preview_from_mouse_well_formed; exact H
    | apply apply_preset_well_formed; [lia | exact H]
    | apply apply_preset_well_formed; [apply (mod_lt _ 6); lia | exact H]
    | destruct H as (? & ? & ? & ? & ? & ?);
      repeat split; cbn;
      solve [ assumption | lia | discriminate | auto
            | intros _; apply Nat.ltb_lt; assumption ] ].

Lemma modal_well_formed (ctx : Context) (e : Event) (s : Session) :
  well_formed s -> well_formed (snd (modal cos sin ctx e s)).
Proof.
  intros H. unfold modal.
  destruct (get_view_relative_vectors ctx) as [forward_vec right_vec].
  destruct (type e), (value e); cbn [snd];
    try (destruct (find (icon_hit e) (rotation_icon_areas s))
           as [[face_index area]|] eqn:Hfind; cbn [snd];
         [ apply apply_preset_well_formed; [|exact H];
           apply find_some in Hfind as [Hin _];
           destruct H as (_ & _ & _ & _ & Hareas & _);
           rewrite Forall_forall in Hareas;
           apply list_elem_of_In in Hin; exact (Hareas _ Hin)
         | ]);
    repeat match goal with
           | |- context [if ?b then _ else _] => destruct b eqn:?
           end;
    cbn [snd]; controls_step H.
Qed.

(** X4. The session keeps its controls in shape: in the state [invoke]
    builds, and after every event handled in a state of that shape, the tile
    size is the table entry of the size index (one of 0.5, 1, 2, 4), the
    face index is one of the six presets, the preview sits on its base
    location, and the inverted mode is on only if inverted cubes exist. *)
Theorem controls_stay_well_formed (cursor_loc : Vector) (inverted : nat)
  (store : gmap mesh_id Mesh) (ctx : Context) (e : Event) (s : Session) :
  well_formed (invoke cursor_loc inverted store) /\
  (well_formed s -> well_formed (snd (modal cos sin ctx e s))).
Proof.
  split; [apply invoke_well_formed | apply modal_well_formed].
Qed.

End ControlInvariant.

Lemma controls_stay_well_formed_witness :
  well_formed new_session /\
  well_formed
    (snd (modal cos_eighth sin_eighth (context None None)
            (event K_T PRESS false false 0 0) new_session)).
Proof.
  split; [apply invoke_well_formed|].
  apply (controls_stay_well_formed cos_eighth sin_eighth (vec 0 0 0) 0 ∅
           (context None None) (event K_T PRESS false false 0 0) new_session).
  apply invoke_well_formed.
Defined.

Section Keys.

Variables cos sin : Q -> Q.

(** X5. Turning leaves the preview where it is: in a well-formed state a
    press of TAB, of R or of a face key changes neither the preview location
    nor the base location. *)
Theorem rotation_keeps_position (ctx : Context) (k : EventType)
  (sh ct : bool) (mx my : Z) (s : Session) :
  well_formed s -> k ∈ rotation_keys ->
  location (preview (snd (modal cos sin ctx (event k PRESS sh ct mx my) s)))
  = location (preview s) /\
  base_location (snd (modal cos sin ctx (event k PRESS sh ct mx my) s))
  = base_location s.
Proof.
  intros (_ & _ & _ & Hloc & _) Hk. unfold modal. cbn [type value shift ctrl].
  destruct (get_view_relative_vectors ctx) as [fwd right].
  unfold rotation_keys in Hk.
  repeat (apply elem_of_cons in Hk as [-> | Hk]);
    try (now apply elem_of_nil in Hk);
    cbn; now rewrite Hloc.
Qed.

Lemma tab_state (ctx : Context) (sh ct : bool) (mx my : Z) (s : Session) :
  rotation_state (snd (modal cos sin ctx (event TAB PRESS sh ct mx my) s))
  = Py.mod_ (Z.of_nat (rotation_state s) + 1) 6 /\
  rotation_euler
    (preview (snd (modal cos sin ctx (event TAB PRESS sh ct mx my) s)))
  = face_rotation (Py.mod_ (Z.of_nat (rotation_state s) + 1) 6).
Proof.
  unfold modal. cbn [type value shift ctrl].
  destruct (get_view_relative_vectors ctx). split; reflexivity.
Qed.

(** X6. Six presses of TAB come back to the face they started from: the
    face index is the one before the six presses and the rotation is that
    preset's. *)
Theorem six_cycles_return (ctx : Context) (sh ct : bool) (mx my : Z)
  (s : Session) :
  (rotation_state s < 6)%nat ->
  rotation_state
    (run_events cos sin (repeat (ctx, event TAB PRESS sh ct mx my) 6) s)
  = rotation_state s /\
  rotation_euler
    (preview
       (run_events cos sin (repeat (ctx, event TAB PRESS sh ct mx my) 6) s))
  = face_rotation (rotation_state s).
Proof.
  intros Hr. cbn [repeat run_events foldl].
  repeat match goal with
         | |- context [snd (modal cos sin ctx ?e ?t)] =>
             lazymatch t with
             | context [modal] => fail
             | _ =>
                 let H1 := fresh "T" in
                 let H2 := fresh "T" in
                 destruct (tab_state ctx sh ct mx my t) as [H1 H2];
                 remember (snd (modal cos sin ctx e t)) eqn:Heq;
                 clear Heq
             end
         end.
  repeat match goal with
         | H : rotation_state ?a = _ |- _ =>
             rewrite H in *; clear H
         end.
  destruct (rotation_state s) as [|[|[|[|[|[|r]]]]]]; try lia;
    split; first [reflexivity | assumption | congruence].
Qed.

Lemma change_tile_size_index (direction : Z) (s : Session) :
  (tile_size_index s < 4)%nat ->
  tile_size_index (change_tile_size cos sin direction s)
  = (if (0 <? direction)%Z
     then Py.mod_ (Z.of_nat (tile_size_index s) + 1) 4
     else Py.mod_ (Z.of_nat (tile_size_index s) - 1) 4) /\
  current_tile_size (change_tile_size cos sin direction s)
  = nth (tile_size_index (change_tile_size cos sin direction s)) TILE_SIZES 0.
Proof.
  intros Hi. unfold change_tile_size.
  destruct (tile_size_index s) as [|[|[|[|i]]]] eqn:Ei; try lia;
    destruct (0 <? direction)%Z; cbn; rewrite ?Ei; split; reflexivity.
Qed.

(** X7. The size cycles with wrap-around: one step up and one step down,
    in either order, give back the size index, four steps up do as well, and
    the tile size is then the table entry of that index. *)
Theorem size_cycle_round_trip (up down : Z) (s : Session) :
  (tile_size_index s < 4)%nat -> (0 < up)%Z -> (down <= 0)%Z ->
  let resized d t := change_tile_size cos sin d t in
  tile_size_index (resized down (resized up s)) = tile_size_index s /\
  tile_size_index (resized up (resized down s)) = tile_size_index s /\
  tile_size_index (resized up (resized up (resized up (resized up s))))
  = tile_size_index s /\
  current_tile_size (resized down (resized up s))
  = nth (tile_size_index s) TILE_SIZES 0.
Proof.
  intros Hi Hup Hdown resized. subst resized. cbv beta.
  assert (Eu : (0 <? up)%Z = true) by now apply Z.ltb_lt.
  assert (Ed : (0 <? down)%Z = false) by now apply Z.ltb_ge.
  assert (Hstep : forall d t, (tile_size_index t < 4)%nat ->
            (tile_size_index (change_tile_size cos sin d t) < 4)%nat).
  { intros d t Ht. destruct (change_tile_size_index d t Ht) as [-> _].
    destruct (0 <? d)%Z; apply (mod_lt _ 4); lia. }
  pose proof (change_tile_size_index up s Hi) as [U1 _].
  pose proof (change_tile_size_index down s Hi) as [D1 _].
  pose proof (change_tile_size_index down _ (Hstep up s Hi)) as [DU DUs].
  pose proof (change_tile_size_index up _ (Hstep down s Hi)) as [UD _].
  pose proof (change_tile_size_index up _ (Hstep up s Hi)) as [UU _].
  pose proof (change_tile_size_index up _ (Hstep up _ (Hstep up s Hi)))
    as [UUU _].
  pose proof (change_tile_size_index up _
                (Hstep up _ (Hstep up _ (Hstep up s Hi)))) as [UUUU _].
  rewrite Eu, Ed in *.
  rewrite DUs, UUUU, UUU, UU, UD, DU, U1, D1.
  destruct (tile_size_index s) as [|[|[|[|i]]]]; try lia; repeat split.
Qed.

End Keys.

Lemma rotation_keeps_position_witness :
  well_formed new_session /\ TAB ∈ rotation_keys /\
  location
    (preview (snd (modal cos_eighth sin_eighth (context None None)
                     (event TAB PRESS false false 0 0) new_session)))
  = location (preview new_session).
Proof.
  split; [apply invoke_well_formed|]. split; [apply list_elem_of_here|].
  apply (rotation_keeps_position cos_eighth sin_eighth (context None None) TAB
           false false 0 0 new_session);
    [apply invoke_well_formed | apply list_elem_of_here].
Defined.

Lemma six_cycles_return_witness :
  (rotation_state new_session < 6)%nat /\
  rotation_state
    (run_events cos_eighth sin_eighth
       (repeat (context None None, event TAB PRESS false false 0 0) 6)
       new_session)
  = rotation_state new_session.
Proof.
  split; [cbn; lia|].
  apply (six_cycles_return cos_eighth sin_eighth (context None None)
           false false 0 0 new_session).
  cbn. lia.
Defined.

Lemma size_cycle_round_trip_witness :
  (tile_size_index new_session < 4)%nat /\
  tile_size_index
    (change_tile_size cos_eighth sin_eighth (-1)
       (change_tile_size cos_eighth sin_eighth 1 new_session))
  = tile_size_index new_session.
Proof.
  split; [cbn; lia|].
  apply (size_cycle_round_trip cos_eighth sin_eighth 1 (-1) new_session);
    [cbn; lia | lia | lia].
Defined.

Section Modes.

Variables cos sin : Q -> Q.

(** X8. Auto-mode is a round trip around Fast speed. Switched on with X it
    forces speed 2.0; while it is on, V changes nothing; switched off again
    it restores the speed from before, and the session is the one before the
    two presses except that the remembered speed is now that speed. Outside
    auto-mode two presses of V bring Normal back to Normal and Fast back to
    Fast. *)
Theorem auto_mode_round_trip (ctx : Context) (sh ct : bool) (mx my : Z)
  (s : Session) :
  auto_mode s = false ->
  let key k t := snd (modal cos sin ctx (event k PRESS sh ct mx my) t) in
  auto_mode (key K_X s) = true /\
  movement_speed (key K_X s) = 2 /\
  key K_V (key K_X s) = key K_X s /\
  key K_X (key K_X s) = set_previous_speed (movement_speed s) s /\
  (movement_speed s == 1 \/ movement_speed s == 2 ->
   movement_speed (key K_V (key K_V s)) == movement_speed s).
Proof.
  intros Ha key. subst key. cbv beta. unfold modal.
  cbn [type value shift ctrl].
  destruct (get_view_relative_vectors ctx) as [fwd right].
  rewrite Ha. cbn.
  split; [reflexivity|]. split; [reflexivity|]. split; [reflexivity|].
  split.
  - destruct s. cbn in *. now subst.
  - intros [H | H].
    + rewrite (Qeq_bool_true _ _ H). cbn. rewrite Ha. cbn. now rewrite H.
    + rewrite (Qeq_bool_false _ 1) by (rewrite H; discriminate).
      cbn. rewrite Ha. cbn. now rewrite H.
Qed.

(** After a commit attempt the current pose is occupied, whether the commit
    went through or was refused. *)
Lemma place_occupies (s : Session) :
  pos_key cos sin (snd (place_tile_at_current_position cos sin s))
    ∈ placed_tiles (snd (place_tile_at_current_position cos sin s)).
Proof.
  destruct (decide (pos_key cos sin s ∈ placed_tiles s)) as [Hin | Hout].
  - now rewrite (place_occupied cos sin s Hin).
  - destruct (place_free cos sin s Hout) as (_ & Hpose & Hpl & _).
    rewrite (same_pose_key cos sin _ _ Hpose), Hpl.
    apply elem_of_union_l, elem_of_singleton. reflexivity.
Qed.

(** X9. In auto-mode every key move ends on an occupied pose: after W, A,
    S, D, Q, E or their arrow and page twins, with or without Shift, the key
    of the new preview pose is in the placed-tile set. *)
Theorem auto_mode_move_places (ctx : Context) (k : EventType) (sh ct : bool)
  (mx my : Z) (s : Session) :
  auto_mode s = true -> k ∈ horizontal_keys ++ vertical_keys ->
  pos_key cos sin (snd (modal cos sin ctx (event k PRESS sh ct mx my) s))
    ∈ placed_tiles (snd (modal cos sin ctx (event k PRESS sh ct mx my) s)).
Proof.
  intros Ha Hk. unfold modal. cbn [type value shift ctrl].
  destruct (get_view_relative_vectors ctx) as [fwd right].
  unfold horizontal_keys, vertical_keys in Hk. cbn [app] in Hk.
  repeat (apply elem_of_cons in Hk as [-> | Hk]);
    try (now apply elem_of_nil in Hk);
    cbn [snd]; unfold finish_move;
    cbn [auto_mode set_last_placed_position set_base_location set_preview];
    rewrite Ha; apply place_occupies.
Qed.

(** X10. The ledger counts tiles one by one: a commit that returns true
    makes the placed-tile set one larger and a refused one leaves its size;
    a delete at an occupied pose makes it one smaller and removes exactly the
    key of the pose, a delete at a free pose leaves it. *)
Theorem ledger_size_steps (s : Session) :
  size (placed_tiles (snd (place_tile_at_current_position cos sin s)))
  = (if fst (place_tile_at_current_position cos sin s)
     then S (size (placed_tiles s)) else size (placed_tiles s)) /\
  placed_tiles (delete_tile_at_current_position cos sin s)
  = placed_tiles s ∖ {[pos_key cos sin s]} /\
  (if decide (pos_key cos sin s ∈ placed_tiles s)
   then S (size (placed_tiles (delete_tile_at_current_position cos sin s)))
        = size (placed_tiles s)
   else size (placed_tiles (delete_tile_at_current_position cos sin s))
        = size (placed_tiles s)).
Proof.
  assert (Hdel : placed_tiles (delete_tile_at_current_position cos sin s)
                 = placed_tiles s ∖ {[pos_key cos sin s]}).
  { unfold delete_tile_at_current_position.
    destruct (decide (pos_key cos sin s ∈ placed_tiles s)) as [Hin | Hout].
    - destruct (store_undo_snapshot_spec s) as (_ & Hpl & _).
      remember (store_undo_snapshot s) as s1 eqn:E1. clear E1.
      destruct (rebuild_spec
                  (set_placed_tiles (placed_tiles s1 ∖ {[pos_key cos sin s]}) s1))
        as (R1 & _).
      cbn. rewrite R1. cbn. now rewrite Hpl.
    - symmetry. apply difference_disjoint_L.
      now apply disjoint_singleton_r. }
  split; [|split; [exact Hdel|]].
  - destruct (decide (pos_key cos sin s ∈ placed_tiles s)) as [Hin | Hout].
    + now rewrite (place_occupied cos sin s Hin).
    + destruct (place_free cos sin s Hout) as (-> & _ & -> & _).
      rewrite size_union by now apply disjoint_singleton_l.
      now rewrite size_singleton.
  - rewrite Hdel.
    destruct (decide (pos_key cos sin s ∈ placed_tiles s)) as [Hin | Hout].
    + rewrite size_difference by now apply singleton_subseteq_l.
      rewrite size_singleton.
      assert (size (placed_tiles s) <> 0%nat).
      { intros E. apply size_empty_iff in E. apply E in Hin.
        now apply elem_of_empty in Hin. }
      lia.
    + f_equal. apply difference_disjoint_L. now apply disjoint_singleton_r.
Qed.

(** X11. Inversion. Without inverted cubes the key I changes nothing. With
    them it flips the inverted mode and leaves the preview in place, so that
    the key of the pose is the old one with the flag flipped: the same pose
    is a different entry of the ledger. *)
Theorem invert_toggle (ctx : Context) (sh ct : bool) (mx my : Z)
  (s : Session) :
  (cube_templates_inverted s = 0%nat ->
   modal cos sin ctx (event K_I PRESS sh ct mx my) s = (RUNNING_MODAL, s)) /\
  ((0 < cube_templates_inverted s)%nat ->
   let s' := snd (modal cos sin ctx (event K_I PRESS sh ct mx my) s) in
   inverted_mode s' = negb (inverted_mode s) /\
   location (preview s') = location (preview s) /\
   rotation_euler (preview s') = rotation_euler (preview s) /\
   pos_key cos sin s' = flip_inverted (pos_key cos sin s) /\
   pos_key cos sin s' <> pos_key cos sin s).
Proof.
  unfold modal. cbn [type value shift ctrl].
  destruct (get_view_relative_vectors ctx) as [fwd right].
  split.
  - intros ->. reflexivity.
  - intros Hn. apply Nat.ltb_lt in Hn. rewrite Hn. cbn.
    repeat split. unfold pos_key. cbn. intros E.
    apply (f_equal snd) in E. cbn in E. now destruct (inverted_mode s).
Qed.

End Modes.

Lemma auto_mode_round_trip_witness :
  auto_mode new_session = false /\
  snd (modal cos_eighth sin_eighth (context None None)
         (event K_X PRESS false false 0 0)
         (snd (modal cos_eighth sin_eighth (context None None)
                 (event K_X PRESS false false 0 0) new_session)))
  = set_previous_speed (movement_speed new_session) new_session.
Proof.
  split; [reflexivity|].
  apply (auto_mode_round_trip cos_eighth sin_eighth (context None None)
           false false 0 0 new_session).
  reflexivity.
Defined.

Lemma auto_mode_move_places_witness :
  auto_mode auto_session = true /\
  K_D ∈ horizontal_keys ++ vertical_keys /\
  pos_key cos_eighth sin_eighth
    (snd (modal cos_eighth sin_eighth (context None None)
            (event K_D PRESS false false 0 0) auto_session))
    ∈ placed_tiles
        (snd (modal cos_eighth sin_eighth (context None None)
                (event K_D PRESS false false 0 0) auto_session)).
Proof.
  split; [reflexivity|].
  split; [unfold horizontal_keys; cbn [app];
          do 6 apply list_elem_of_further; apply list_elem_of_here|].
  apply (auto_mode_move_places cos_eighth sin_eighth (context None None) K_D
           false false 0 0 auto_session); [reflexivity|].
  unfold horizontal_keys; cbn [app].
  do 6 apply list_elem_of_further. apply list_elem_of_here.
Defined.

Lemma invert_toggle_witness :
  cube_templates_inverted new_session = 0%nat /\
  modal cos_eighth sin_eighth (context None None)
    (event K_I PRESS false false 0 0) new_session
  = (RUNNING_MODAL, new_session) /\
  (0 < cube_templates_inverted invertible_session)%nat /\
  inverted_mode
    (snd (modal cos_eighth sin_eighth (context None None)
            (event K_I PRESS false false 0 0) invertible_session))
  = negb (inverted_mode invertible_session).
Proof.
  split; [reflexivity|]. split.
  - apply (proj1 (invert_toggle cos_eighth sin_eighth (context None None)
                    false false 0 0 new_session)).
    reflexivity.
  - split; [cbn; lia|].
    apply (proj2 (invert_toggle cos_eighth sin_eighth (context None None)
                    false false 0 0 invertible_session)).
    cbn. lia.
Defined.

(** ** Pointer moves *)

Section Pointer.

Variables cos sin : Q -> Q.


(** X12. With Shift held, a pointer move never changes the height of the
    preview: whatever the view, the pointer history and the mode, the Z
    coordinate of the preview after the move is the very value it had
    before, which the code writes back after the step. (Without Shift the
    height is the Z of a computed ray intersection, and nothing of the kind
    is said here.) *)
Theorem pointer_keeps_height (ctx : Context) (e : Event) (s : Session) :
  shift e = true ->
  vz (location (preview (update_preview_from_mouse cos sin ctx e s)))
  = vz (location (preview s)).
Proof.
  intros Hshift. unfold update_preview_from_mouse. rewrite Hshift.
  destruct (get_view_relative_vectors ctx) as [forward_vec right_vec].
  destruct (region ctx) as [[ray_origin view_vector]|]; [|reflexivity].
  destruct (region_data ctx); [|reflexivity].
  destruct (last_mouse s) as [[lx ly]|]; [|reflexivity].
  destruct (_ && _)%bool; [reflexivity|].
  cbn [auto_mode set_last_placed_position set_base_location set_preview
       set_last_mouse].
  destruct (auto_mode s); [rewrite place_preview|]; reflexivity.
Qed.


End Pointer.

Lemma pointer_keeps_height_witness :
  shift (event MOUSEMOVE PRESS true false 40 0) = true /\
  vz (location
        (preview
           (update_preview_from_mouse cos_eighth sin_eighth
              (context (Some (vec (13 # 10) 0 5, vec 0 0 (-1)))
                 (Some (region_view None)))
              (event MOUSEMOVE PRESS true false 40 0)
              (set_last_mouse (Some (0, 0)%Z) new_session))))
  = vz (location (preview (set_last_mouse (Some (0, 0)%Z) new_session))).
Proof.
  split; [reflexivity|].
  apply (pointer_keeps_height cos_eighth sin_eighth
           (context (Some (vec (13 # 10) 0 5, vec 0 0 (-1)))
              (Some (region_view None)))
           (event MOUSEMOVE PRESS true false 40 0)
           (set_last_mouse (Some (0, 0)%Z) new_session)).
  reflexivity.
Defined.


(** ** Undo, deletion and the snapshots *)

Section Snapshots.

Variables cos sin : Q -> Q.

(** X14. When undo refuses. With an empty log undo returns false and the
    session is untouched. In a state that keeps the ledger invariant undo
    returns false in exactly two cases: the log is empty, or its newest
    snapshot holds a mesh while no structure exists. A refused undo never
    changes the placed-tile set or the structure. *)
Theorem undo_refusals (s : Session) :
  ledger_inv s ->
  (undo_history s = [] -> undo_placement s = (false, s)) /\
  (fst (undo_placement s) = false <->
   undo_history s = [] \/
   ((exists m, last (undo_history s) = Some (Some m))
    /\ master_object s = None)) /\
  (fst (undo_placement s) = false ->
   placed_tiles (snd (undo_placement s)) = placed_tiles s /\
   master_object (snd (undo_placement s)) = master_object s).
Proof.
  intros [_ Hsync]. split; [apply undo_nothing|].
  unfold undo_placement.
  destruct (last (undo_history s)) as [lm|] eqn:El.
  2:{ apply last_None in El. cbn. split; [|tauto]. split; [tauto|reflexivity]. }
  assert (Hne : undo_history s <> []).
  { intros E. rewrite E in El. discriminate. }
  pose proof El as Eh. apply last_Some in Eh as [h Eh]. cbn.
  destruct (last (undo_positions s)) as [lp|] eqn:Ep.
  2:{ apply last_None in Ep. rewrite Eh, Ep, length_app in Hsync.
      cbn in Hsync. lia. }
  destruct lm as [m|]; [destruct (master_object s) as [master|] eqn:Em|]; cbn.
  - split; [|discriminate]. split; [discriminate|].
    intros [E | [_ E]]; [contradiction | discriminate].
  - split; [|now split]. split; [|reflexivity].
    intros _. right. split; [now exists m | reflexivity].
  - split; [|discriminate]. split; [discriminate|].
    intros [E | [[m E] _]]; [contradiction | discriminate].
Qed.

Lemma rebuild_of_empty (s : Session) :
  placed_tiles s = ∅ -> master_object (rebuild_structure_mesh s) = None.
Proof.
  intros He. unfold rebuild_structure_mesh.
  pose proof (rebuild_fold (elements (placed_tiles (set_master_object None s)))
                ([], set_master_object None s)) as H.
  destruct (foldl _ _ _) as [objs s1]. cbn [fst snd] in H.
  destruct H as (I1 & _ & I3 & _).
  change (placed_tiles (set_master_object None s)) with (placed_tiles s) in I1.
  rewrite He, elements_empty in I1. cbn in I1.
  destruct objs; [exact I3 | discriminate].
Qed.

(** What a delete at an occupied pose leaves behind: the newest snapshot
    holds a mesh and the key set from before, and a structure exists exactly
    if a tile is left. *)
Lemma delete_occupied (s : Session) :
  ledger_inv s -> pos_key cos sin s ∈ placed_tiles s ->
  exists h ps m,
    undo_history (delete_tile_at_current_position cos sin s) = h ++ [Some m] /\
    undo_positions (delete_tile_at_current_position cos sin s)
    = ps ++ [placed_tiles s] /\
    placed_tiles (delete_tile_at_current_position cos sin s)
    = placed_tiles s ∖ {[pos_key cos sin s]} /\
    (master_object (delete_tile_at_current_position cos sin s) = None <->
     placed_tiles s ∖ {[pos_key cos sin s]} = ∅).
Proof.
  intros [Hempty Hsync] Hin. unfold delete_tile_at_current_position.
  rewrite decide_True by exact Hin.
  destruct (store_undo_snapshot_spec s)
    as (_ & Hpl & Hmo & d & e & [Hh Hp] & He & Hd).
  assert (Hm : master_object s <> None).
  { intros E. rewrite (Hempty E) in Hin. now apply elem_of_empty in Hin. }
  destruct e as [m|]; [|exfalso; now apply Hm, He].
  remember (store_undo_snapshot s) as s1 eqn:E1. clear E1.
  assert (Hdl : (d <= length (undo_history s))%nat) by lia.
  rewrite drop_app_le in Hh by exact Hdl.
  rewrite drop_app_le in Hp by (rewrite <- Hsync; exact Hdl).
  destruct (rebuild_spec
              (set_placed_tiles (placed_tiles s1 ∖ {[pos_key cos sin s]}) s1))
    as (R1 & R2 & R3 & R4).
  pose proof (rebuild_of_empty
                (set_placed_tiles (placed_tiles s1 ∖ {[pos_key cos sin s]}) s1))
    as R5.
  cbn [placed_tiles set_placed_tiles undo_history undo_positions] in *.
  exists (drop d (undo_history s)), (drop d (undo_positions s)), m.
  cbn. rewrite R1, R2, R3, Hh, Hp. rewrite Hpl in *.
  repeat split; [exact R4 | exact R5].
Qed.

(** X15. Undo takes a deletion back as long as a tile is left: after a
    delete at an occupied pose that does not empty the placed-tile set, undo
    succeeds and the set is the one before the delete. *)
Theorem delete_then_undo_restores (s : Session) :
  ledger_inv s -> pos_key cos sin s ∈ placed_tiles s ->
  placed_tiles s ∖ {[pos_key cos sin s]} <> ∅ ->
  fst (undo_placement (delete_tile_at_current_position cos sin s)) = true /\
  placed_tiles
    (snd (undo_placement (delete_tile_at_current_position cos sin s)))
  = placed_tiles s.
Proof.
  intros Hinv Hin Hleft.
  destruct (delete_occupied s Hinv Hin) as (h & ps & m & Hh & Hp & _ & Hm).
  destruct (master_object (delete_tile_at_current_position cos sin s))
    as [master|] eqn:Em.
  - destruct (undo_mesh_entry _ _ _ _ _ _ Hh Hp Em) as (U1 & U2 & _).
    now split.
  - exfalso. apply Hleft. now apply Hm.
Qed.

(** X16. Undo does not take back the deletion of the last tile: the delete
    tears the structure down, the undo that follows finds a mesh snapshot
    and no structure, returns false and has used the snapshot up; the
    placed-tile set stays empty. *)
Theorem delete_last_then_undo_fails (s : Session) :
  ledger_inv s -> pos_key cos sin s ∈ placed_tiles s ->
  placed_tiles s ∖ {[pos_key cos sin s]} = ∅ ->
  fst (undo_placement (delete_tile_at_current_position cos sin s)) = false /\
  placed_tiles
    (snd (undo_placement (delete_tile_at_current_position cos sin s))) = ∅ /\
  S (length (undo_history
               (snd (undo_placement
                       (delete_tile_at_current_position cos sin s)))))
  = length (undo_history (delete_tile_at_current_position cos sin s)).
Proof.
  intros Hinv Hin Hleft.
  destruct (delete_occupied s Hinv Hin) as (h & ps & m & Hh & Hp & Hpl & Hm).
  assert (Em : master_object (delete_tile_at_current_position cos sin s) = None)
    by now apply Hm.
  remember (delete_tile_at_current_position cos sin s) as s1 eqn:E1. clear E1.
  unfold undo_placement. rewrite Hh, last_snoc. cbn.
  rewrite Hp, last_snoc. cbn. rewrite Em. cbn.
  rewrite ?Hh, removelast_last, length_app. cbn.
  repeat split; [congruence | lia].
Qed.

(** X17. A push with a structure in place. Below twenty entries the log
    grows by a snapshot that names a fresh copy of the structure's mesh and
    holds the current key set. From twenty entries on the oldest entry
    leaves at the same time, the length stays, and the mesh the evicted
    entry held is no longer in the store. *)
Theorem snapshot_push_with_structure (s : Session) (master : Structure) :
  master_object s = Some master ->
  let copy := fresh_mesh (meshes s) in
  ((length (undo_history s) < 20)%nat ->
   undo_history (store_undo_snapshot s) = undo_history s ++ [Some copy] /\
   undo_positions (store_undo_snapshot s)
   = undo_positions s ++ [placed_tiles s] /\
   meshes (store_undo_snapshot s)
   = <[copy := default [] (meshes s !! data master)]> (meshes s)) /\
  (forall old rest,
     undo_history s = old :: rest -> (20 <= length (undo_history s))%nat ->
     undo_history (store_undo_snapshot s) = rest ++ [Some copy] /\
     undo_positions (store_undo_snapshot s)
     = tail (undo_positions s ++ [placed_tiles s]) /\
     length (undo_history (store_undo_snapshot s)) = length (undo_history s) /\
     (forall m, old = Some m -> meshes (store_undo_snapshot s) !! m = None)).
Proof.
  intros Hm copy. subst copy. unfold store_undo_snapshot. rewrite Hm.
  cbn -[Nat.ltb]. split.
  - intros Hlen.
    assert (E : (20 <? length (undo_history s
                                 ++ [Some (fresh_mesh (meshes s))]))%nat = false).
    { apply Nat.ltb_ge. rewrite length_app. cbn. lia. }
    rewrite E. repeat split.
  - intros old rest Hh Hlen.
    assert (E : (20 <? length (undo_history s
                                 ++ [Some (fresh_mesh (meshes s))]))%nat = true).
    { apply Nat.ltb_lt. rewrite length_app. cbn. lia. }
    rewrite E, Hh. cbn [app].
    destruct old as [m|]; cbn; rewrite ?length_app; cbn;
      (repeat split; [lia|]); intros m' Hm'; [|discriminate].
    injection Hm' as <-. apply lookup_delete_eq.
Qed.

End Snapshots.

Lemma undo_refusals_witness :
  ledger_inv new_session /\
  undo_placement new_session = (false, new_session).
Proof.
  split; [apply invoke_inv|].
  apply (proj1 (undo_refusals new_session (invoke_inv _ _ _))).
  reflexivity.
Defined.

Lemma delete_then_undo_restores_witness :
  ledger_inv two_tile_session /\
  pos_key cos_eighth sin_eighth two_tile_session
    ∈ placed_tiles two_tile_session /\
  placed_tiles
    (snd (undo_placement
            (delete_tile_at_current_position cos_eighth sin_eighth
               two_tile_session)))
  = placed_tiles two_tile_session.
Proof.
  split; [apply run_events_inv, invoke_inv|].
  split; [refine (bool_decide_unpack _ _); vm_compute; exact I|].
  apply (delete_then_undo_restores cos_eighth sin_eighth two_tile_session).
  - apply run_events_inv, invoke_inv.
  - refine (bool_decide_unpack _ _); vm_compute; exact I.
  - refine (bool_decide_unpack _ _); vm_compute; exact I.
Defined.

Lemma delete_last_then_undo_fails_witness :
  ledger_inv one_tile_session /\
  pos_key cos_eighth sin_eighth one_tile_session
    ∈ placed_tiles one_tile_session /\
  fst (undo_placement
         (delete_tile_at_current_position cos_eighth sin_eighth
            one_tile_session)) = false.
Proof.
  split; [apply run_events_inv, invoke_inv|].
  split; [refine (bool_decide_unpack _ _); vm_compute; exact I|].
  apply (delete_last_then_undo_fails cos_eighth sin_eighth one_tile_session).
  - apply run_events_inv, invoke_inv.
  - refine (bool_decide_unpack _ _); vm_compute; exact I.
  - refine (bool_decide_unpack _ _); vm_compute; exact I.
Defined.

Lemma snapshot_push_with_structure_witness :
  master_object one_tile_session
  = Some (structure 0%nat
            (object (get_green_face_world_position cos_eighth sin_eighth
                       new_session)
                    (rotation_euler (preview new_session)))) /\
  (length (undo_history one_tile_session) < 20)%nat /\
  undo_history (store_undo_snapshot one_tile_session)
  = undo_history one_tile_session
    ++ [Some (fresh_mesh (meshes one_tile_session))].
Proof.
  split; [reflexivity|]. split; [vm_compute; lia|].
  apply (proj1 (snapshot_push_with_structure one_tile_session
                  (structure 0%nat
                     (object (get_green_face_world_position cos_eighth
                                sin_eighth new_session)
                             (rotation_euler (preview new_session))))
                  eq_refl)).
  vm_compute. lia.
Defined.

(** ** Rebuilding the structure *)

Lemma fresh_mesh_unused (m : gmap mesh_id Mesh) : m !! fresh_mesh m = None.
Proof.
  unfold fresh_mesh. apply not_elem_of_dom. apply is_fresh.
Qed.

Lemma tiles_of_copies (tiles : list (Vector * Euler * nat)) :
  tiles_of ((tile_copy <$> tiles) ++ [remove_doubles]) = tiles.
Proof.
  unfold tiles_of. rewrite omap_app. cbn. rewrite app_nil_r.
  induction tiles as [|t tiles IH]; [reflexivity|]. cbn. now rewrite IH.
Qed.

(** The loop that recreates the tiles: one object per key, in order, each
    with a new datablock that holds its template copy; the datablocks that
    were in the store stay as they are. *)
Lemma rebuild_fold_meshes (keys : list PosKey) (acc : list Structure * Session) :
  (exists objs,
     fst (foldl recreate_tile acc keys) = fst acc ++ objs /\
     Forall2 (fun obj k =>
                placement obj
                = object (fst (fst (tile_of_key k))) (snd (fst (tile_of_key k)))
                /\ meshes (snd acc) !! data obj = None
                /\ meshes (snd (foldl recreate_tile acc keys)) !! data obj
                   = Some [tile_copy (tile_of_key k)]) objs keys) /\
  (forall id, is_Some (meshes (snd acc) !! id) ->
     meshes (snd (foldl recreate_tile acc keys)) !! id
     = meshes (snd acc) !! id).
Proof.
  revert acc. induction keys as [|k keys IH]; intros acc.
  - cbn. split; [|reflexivity].
    exists []. split; [now rewrite app_nil_r | constructor].
  - cbn [foldl].
    destruct (IH (recreate_tile acc k)) as ((objs & Hobjs & Hall) & Hkeep).
    assert (Hstep : forall id,
               is_Some (meshes (snd acc) !! id) ->
               meshes (snd (recreate_tile acc k)) !! id
               = meshes (snd acc) !! id).
    { intros id Hid. unfold recreate_tile, new_tile_mesh. cbn.
      apply lookup_insert_ne. intros <-.
      rewrite fresh_mesh_unused in Hid. now destruct Hid. }
    assert (Hnew : meshes (snd (recreate_tile acc k))
                     !! fresh_mesh (meshes (snd acc))
                   = Some [tile_copy (tile_of_key k)]).
    { unfold recreate_tile, new_tile_mesh. cbn. apply lookup_insert_eq. }
    split.
    + exists (structure (fresh_mesh (meshes (snd acc)))
                (object (fst (fst (tile_of_key k)))
                        (snd (fst (tile_of_key k)))) :: objs).
      split.
      * rewrite Hobjs. unfold recreate_tile, new_tile_mesh. cbn.
        now rewrite <- app_assoc.
      * constructor.
        -- cbv beta. cbn [data placement].
           split; [reflexivity|]. split; [apply fresh_mesh_unused|].
           rewrite Hkeep; [exact Hnew | eexists; exact Hnew].
        -- eapply Forall2_impl; [exact Hall|].
           intros obj k' (Hp & Hnone & Hsome).
           split; [exact Hp|]. split; [|exact Hsome].
           destruct (meshes (snd acc) !! data obj) eqn:E; [|reflexivity].
           rewrite <- Hnone. symmetry. rewrite <- E. apply Hstep.
           rewrite E. eauto.
    + intros id Hid. rewrite Hkeep; [now apply Hstep|].
      rewrite Hstep by exact Hid. exact Hid.
Qed.

(** What a rebuild leaves in the store and as the structure. *)
Lemma rebuild_store (s : Session) :
  (forall id, is_Some (meshes s !! id) ->
     meshes (rebuild_structure_mesh s) !! id = meshes s !! id) /\
  (placed_tiles s <> ∅ ->
   exists master mesh k,
     master_object (rebuild_structure_mesh s) = Some master /\
     meshes s !! data master = None /\
     meshes (rebuild_structure_mesh s) !! data master = Some mesh /\
     tiles_of mesh = tile_of_key <$> elements (placed_tiles s) /\
     k ∈ placed_tiles s /\
     placement master
     = object (fst (fst (tile_of_key k))) (snd (fst (tile_of_key k)))).
Proof.
  unfold rebuild_structure_mesh.
  change (placed_tiles (set_master_object None s)) with (placed_tiles s).
  pose proof (rebuild_fold_meshes (elements (placed_tiles s))
                ([], set_master_object None s)) as ((objs & Hobjs & Hall) & Hkeep).
  destruct (foldl recreate_tile ([], set_master_object None s)
              (elements (placed_tiles s))) as [temp_objects s1].
  cbn [fst snd app] in Hobjs, Hall, Hkeep. subst temp_objects.
  change (meshes (set_master_object None s)) with (meshes s) in *.
  split.
  - intros id Hid. specialize (Hkeep id Hid).
    destruct Hall as [|first k objs keys (_ & Hnone & _) Hall]; [exact Hkeep|].
    destruct (1 <? _)%nat; [|exact Hkeep]. cbn.
    rewrite lookup_insert_ne; [exact Hkeep|].
    intros E. destruct Hid as [x Hx]. rewrite <- E in Hx. congruence.
  - intros Hne.
    destruct (elements (placed_tiles s)) as [|k keys] eqn:Ek.
    { exfalso. apply Hne. apply leibniz_equiv. now apply elements_empty_inv. }
    inversion Hall as [|first k' objs' keys' (Hp & Hnone & Hsome) Hall' E1 E2].
    subst. cbn [length].
    assert (Hk : k ∈ placed_tiles s).
    { apply elem_of_elements. rewrite Ek. constructor. }
    apply Forall2_length in Hall'.
    destruct objs' as [|second objs'].
    + destruct keys; [|discriminate]. cbn.
      exists first, [tile_copy (tile_of_key k)], k.
      repeat split; assumption.
    + cbn.
      exists first,
        ((tile_copy <$> (tile_of_key <$> k :: keys)) ++ [remove_doubles]), k.
      split; [reflexivity|]. split; [exact Hnone|].
      split; [apply lookup_insert_eq|].
      split; [apply tiles_of_copies|]. split; assumption.
Qed.



(** ** Loading the templates *)

Section LoaderProperties.

Variable wm_append : gset string -> gset string.

Lemma first_pattern_some (objects : gset string)
  (patterns : list (list string)) (found : list string) :
  first_pattern objects patterns = Some found ->
  found ∈ patterns /\ Forall (fun name => name ∈ objects) found.
Proof.
  intros H. apply find_some in H as [Hin Hall]. split.
  - now apply list_elem_of_In.
  - apply Forall_forall. intros name Hn.
    unfold all_present in Hall. rewrite forallb_forall in Hall.
    apply list_elem_of_In in Hn. apply Hall in Hn.
    now apply bool_decide_eq_true in Hn.
Qed.

Lemma first_pattern_none (objects : gset string)
  (patterns : list (list string)) :
  first_pattern objects patterns = None ->
  Forall (fun pattern => all_present objects pattern = false) patterns.
Proof.
  intros H. apply Forall_forall. intros pattern Hp.
  apply list_elem_of_In in Hp.
  exact (find_none _ _ H _ Hp).
Qed.

Lemma pattern_length (pats : list (list string)) (found : list string) :
  found ∈ pats ->
  pats = PLANE_PATTERNS \/ pats = CUBE_PATTERNS
  \/ pats = CUBE_PATTERNS_INVERTED ->
  length found = 4%nat.
Proof.
  intros Hin [-> | [-> | ->]];
    repeat (apply elem_of_cons in Hin as [-> | Hin]; [reflexivity|]);
    now apply elem_of_nil in Hin.
Qed.

(** What a successful load has found. *)
Lemma load_success (blend_exists : bool) (objects : gset string) :
  fst (load_tile_objects wm_append blend_exists objects) = true ->
  length (plane_templates
            (snd (load_tile_objects wm_append blend_exists objects)))
  = 4%nat /\
  length (cube_templates
            (snd (load_tile_objects wm_append blend_exists objects)))
  = 4%nat /\
  (length (inverted_templates
             (snd (load_tile_objects wm_append blend_exists objects)))
   = 0%nat \/
   length (inverted_templates
             (snd (load_tile_objects wm_append blend_exists objects)))
   = 4%nat) /\
  Forall (fun name => name ∈ objects_after_append wm_append objects)
    (plane_templates (snd (load_tile_objects wm_append blend_exists objects))
     ++ cube_templates
          (snd (load_tile_objects wm_append blend_exists objects))
     ++ inverted_templates
          (snd (load_tile_objects wm_append blend_exists objects))).
Proof.
  unfold load_tile_objects, objects_after_append.
  destruct blend_exists; cbn [negb]; [|discriminate].
  remember (if all_present objects (PLANE_NAMES ++ CUBE_NAMES)
            then objects else wm_append objects) as scene eqn:Es. clear Es.
  destruct (first_pattern scene PLANE_PATTERNS) as [planes|] eqn:Ep;
    destruct (first_pattern scene CUBE_PATTERNS) as [cubes|] eqn:Ec;
    cbn [default app fst snd plane_templates cube_templates
         inverted_templates]; try discriminate.
  intros _.
  destruct (first_pattern_some _ _ _ Ep) as [Hp1 Hp2].
  destruct (first_pattern_some _ _ _ Ec) as [Hc1 Hc2].
  destruct (first_pattern scene CUBE_PATTERNS_INVERTED) as [inv|] eqn:Ei;
    cbn [default].
  - destruct (first_pattern_some _ _ _ Ei) as [Hi1 Hi2].
    split; [eapply pattern_length; eauto|].
    split; [eapply pattern_length; eauto|].
    split; [right; eapply pattern_length; eauto|].
    rewrite !Forall_app. auto.
  - split; [eapply pattern_length; eauto|].
    split; [eapply pattern_length; eauto|].
    split; [now left|].
    rewrite !Forall_app. auto.
Qed.

(** X19. Loading the templates succeeds exactly when the blend file is
    there and, in the scene as it is after the append (which is skipped when
    the eight standard names are all present), some naming pattern of the
    planes and some naming pattern of the cubes is complete. On success there
    are four planes and four cubes, one per tile size, and none or four
    inverted cubes, all of them objects of the scene; inverted cubes are not
    needed for success. *)
Theorem load_tile_objects_spec (blend_exists : bool) (objects : gset string) :
  let loaded := load_tile_objects wm_append blend_exists objects in
  let scene := objects_after_append wm_append objects in
  (fst loaded = true <->
   blend_exists = true /\
   is_Some (first_pattern scene PLANE_PATTERNS) /\
   is_Some (first_pattern scene CUBE_PATTERNS)) /\
  (fst loaded = true ->
   length (plane_templates (snd loaded)) = length TILE_SIZES /\
   length (cube_templates (snd loaded)) = length TILE_SIZES /\
   (length (inverted_templates (snd loaded)) = 0%nat \/
    length (inverted_templates (snd loaded)) = length TILE_SIZES) /\
   Forall (fun name => name ∈ scene)
     (plane_templates (snd loaded) ++ cube_templates (snd loaded)
      ++ inverted_templates (snd loaded))).
Proof.
  cbv zeta. split; [|apply load_success].
  unfold load_tile_objects, objects_after_append.
  destruct blend_exists; cbn [negb].
  2:{ cbn. split; [discriminate|]. intros (E & _). discriminate. }
  remember (if all_present objects (PLANE_NAMES ++ CUBE_NAMES)
            then objects else wm_append objects) as scene eqn:Es. clear Es.
  destruct (first_pattern scene PLANE_PATTERNS) as [planes|] eqn:Ep;
    destruct (first_pattern scene CUBE_PATTERNS) as [cubes|] eqn:Ec;
    cbn [default app fst snd].
  - split; [eauto | reflexivity].
  - split; [discriminate|]. intros (_ & _ & H). now destruct H.
  - split; [discriminate|]. intros (_ & H & _). now destruct H.
  - split; [discriminate|]. intros (_ & H & _). now destruct H.
Qed.

(** X20. With the templates of a successful load, the cube for the preview
    exists for each of the four size indices and is an object of the scene;
    it is taken from the inverted cubes exactly when the inverted mode is on
    and inverted cubes were loaded. *)
Theorem current_cube_template_spec (blend_exists : bool)
  (objects : gset string) (inverted_mode : bool) (tile_size_index : nat) :
  let loaded := load_tile_objects wm_append blend_exists objects in
  let scene := objects_after_append wm_append objects in
  fst loaded = true -> (tile_size_index < 4)%nat ->
  exists cube,
    get_current_cube_template (snd loaded) inverted_mode tile_size_index
    = Some cube /\
    cube ∈ scene /\
    (if inverted_mode
        && negb (length (inverted_templates (snd loaded)) =? 0)%nat
     then inverted_templates (snd loaded) !! tile_size_index = Some cube
     else cube_templates (snd loaded) !! tile_size_index = Some cube).
Proof.
  cbv zeta. intros Hok Hi.
  destruct (load_success _ _ Hok) as (_ & Hc & Hinv & Hall).
  remember (snd (load_tile_objects wm_append blend_exists objects)) as t.
  rewrite !Forall_app in Hall. destruct Hall as (_ & Hcs & His).
  unfold get_current_cube_template.
  destruct Hinv as [E | E]; rewrite E.
  - assert (Hlt : (tile_size_index <? 0)%nat = false) by now apply Nat.ltb_ge; lia.
    rewrite Hlt, andb_false_r. cbn [Nat.eqb negb].
    destruct (lookup_lt_is_Some_2 (cube_templates t) tile_size_index
                ltac:(lia)) as [cube Hcube].
    exists cube. rewrite Hcube, andb_false_r.
    split; [reflexivity|]. split; [|reflexivity].
    rewrite Forall_forall in Hcs. apply Hcs.
    eapply list_elem_of_lookup_2; eauto.
  - assert (Hlt : (tile_size_index <? 4)%nat = true) by now apply Nat.ltb_lt.
    rewrite Hlt, andb_true_r. cbn [Nat.eqb negb].
    destruct inverted_mode; cbn [andb].
    + destruct (lookup_lt_is_Some_2 (inverted_templates t) tile_size_index
                  ltac:(lia)) as [cube Hcube].
      exists cube. rewrite Hcube.
      split; [reflexivity|]. split; [|reflexivity].
      rewrite Forall_forall in His. apply His.
      eapply list_elem_of_lookup_2; eauto.
    + destruct (lookup_lt_is_Some_2 (cube_templates t) tile_size_index
                  ltac:(lia)) as [cube Hcube].
      exists cube. rewrite Hcube.
      split; [reflexivity|]. split; [|reflexivity].
      rewrite Forall_forall in Hcs. apply Hcs.
      eapply list_elem_of_lookup_2; eauto.
Qed.

End LoaderProperties.

Lemma load_tile_objects_spec_witness :
  fst (load_tile_objects standard_append true ∅) = true /\
  length (plane_templates (snd (load_tile_objects standard_append true ∅)))
  = length TILE_SIZES.
Proof.
  split; [vm_compute; reflexivity|].
  apply (proj2 (load_tile_objects_spec standard_append true ∅)).
  vm_compute. reflexivity.
Defined.

Lemma current_cube_template_spec_witness :
  fst (load_tile_objects standard_append true ∅) = true /\
  exists cube,
    get_current_cube_template (snd (load_tile_objects standard_append true ∅))
      false 2
    = Some cube /\
    cube ∈ objects_after_append standard_append ∅.
Proof.
  split; [vm_compute; reflexivity|].
  destruct (current_cube_template_spec standard_append true ∅ false 2)
    as (cube & H1 & H2 & _); [vm_compute; reflexivity | lia |].
  exists cube. now split.
Defined.

(** ** Structure, ledger and log in step *)

Lemma round6_idempotent (x : Q) : Py.round6 (Py.round6 x) = Py.round6 x.
Proof.
  unfold Py.round6 at 1 3. do 2 f_equal. f_equal.
  transitivity (Py.round (inject_Z (Py.round (x * 1000000))));
    [|apply round_inject_Z].
  apply round_comp. unfold Py.round6. rewrite Qred_correct. field.
Qed.

Lemma rounded_empty : rounded ∅.
Proof. intros k Hk. now apply elem_of_empty in Hk. Qed.

Lemma rounded_subseteq (P Q : gset PosKey) : P ⊆ Q -> rounded Q -> rounded P.
Proof. intros Hs HQ k Hk. apply HQ. now apply Hs. Qed.

Lemma rounded_insert (k : PosKey) (P : gset PosKey) :
  round_face (tile_of_key k) = tile_of_key k -> rounded P ->
  rounded ({[k]} ∪ P).
Proof.
  intros Hk HP k' Hin. apply elem_of_union in Hin as [Hin | Hin].
  - apply elem_of_singleton in Hin. now subst.
  - now apply HP.
Qed.

Lemma insert_nonempty (k : PosKey) (P : gset PosKey) : {[k]} ∪ P <> ∅.
Proof.
  intros E. apply (not_elem_of_empty (C := gset PosKey) k).
  rewrite <- E. apply elem_of_union_l, elem_of_singleton. reflexivity.
Qed.

Lemma tiles_of_app (m1 m2 : Mesh) :
  tiles_of (m1 ++ m2) = tiles_of m1 ++ tiles_of m2.
Proof. apply omap_app. Qed.

Lemma built_for_first (tile : Vector * Euler * nat) (k : PosKey) :
  round_face tile = tile_of_key k -> built_for [tile_copy tile] ({[k]} ∪ ∅).
Proof.
  intros Ht. unfold built_for. rewrite union_empty_r_L, elements_singleton.
  cbn. now rewrite Ht.
Qed.

Lemma built_for_join (mesh : Mesh) (P : gset PosKey) (k : PosKey)
  (tile : Vector * Euler * nat) :
  k ∉ P -> round_face tile = tile_of_key k -> built_for mesh P ->
  built_for (mesh ++ [tile_copy tile; remove_doubles]) ({[k]} ∪ P).
Proof.
  unfold built_for. intros Hk Ht Hm.
  rewrite tiles_of_app, fmap_app. cbn. rewrite Ht.
  rewrite (elements_union_singleton P k Hk). cbn.
  rewrite Hm. symmetry. apply Permutation_cons_append.
Qed.

Lemma built_for_rebuilt (mesh : Mesh) (P : gset PosKey) :
  rounded P -> tiles_of mesh = tile_of_key <$> elements P -> built_for mesh P.
Proof.
  intros HP E. unfold built_for. rewrite E.
  assert (E' : round_face <$> (tile_of_key <$> elements P)
               = tile_of_key <$> elements P).
  { rewrite <- list_fmap_compose. apply list_fmap_ext.
    intros i k Hk. cbn. apply HP.
    apply elem_of_elements. eapply list_elem_of_lookup_2; eauto. }
  now rewrite E'.
Qed.

Lemma log_ids_app (h k : list (option mesh_id)) :
  log_ids (h ++ k) = log_ids h ++ log_ids k.
Proof. unfold log_ids. apply omap_app. Qed.

(** Log entries do not see changes of the store at other meshes. *)
Lemma snapshots_store (st st' : gmap mesh_id Mesh) h ps :
  (forall m, m ∈ log_ids h -> st' !! m = st !! m) ->
  Forall2 (snapshot_ok st) h ps -> Forall2 (snapshot_ok st') h ps.
Proof.
  intros Hsame H. induction H as [|e P h ps [HP He] H IH]; [constructor|].
  constructor.
  - split; [exact HP|]. destruct e as [m|]; [|exact He].
    destruct He as (Hne & mesh & Hf & Hm). split; [exact Hne|].
    exists mesh. split; [|exact Hm].
    rewrite Hsame; [exact Hf | cbn; apply list_elem_of_here].
  - apply IH. intros m Hm. apply Hsame.
    destruct e; cbn; [now apply list_elem_of_further | exact Hm].
Qed.

(** The meshes the log holds are in the store. *)
Lemma snapshots_in_store (st : gmap mesh_id Mesh) h ps (m : mesh_id) :
  Forall2 (snapshot_ok st) h ps -> m ∈ log_ids h -> is_Some (st !! m).
Proof.
  intros H. induction H as [|e P h ps [HP He] H IH]; intros Hm.
  - now apply elem_of_nil in Hm.
  - destruct e as [m'|]; cbn in Hm; [|now apply IH].
    apply elem_of_cons in Hm as [-> | Hm]; [|now apply IH].
    destruct He as (_ & mesh & Hf & _). now rewrite Hf.
Qed.

(** An entry has no mesh exactly when its key set is empty. *)
Lemma snapshots_empty (st : gmap mesh_id Mesh) h ps :
  Forall2 (snapshot_ok st) h ps ->
  Forall2 (fun e P => e = None <-> P = ∅) h ps.
Proof.
  intros H. eapply Forall2_impl; [exact H|].
  intros e P [_ He]. destruct e as [m|].
  - destruct He as [Hne _]. split; [discriminate | contradiction].
  - now split.
Qed.

Lemma fits_push_none st P h ps :
  fits st None P h ps -> fits st None P (h ++ [None]) (ps ++ [P]).
Proof.
  intros (HP & Hs & Hn & He). split; [exact HP|]. split; [|split; [|exact He]].
  - apply Forall2_app; [exact Hs|]. repeat constructor; assumption.
  - rewrite log_ids_app. cbn. now rewrite app_nil_r.
Qed.

Lemma fits_push st master P h ps :
  fits st (Some master) P h ps ->
  fits (<[fresh_mesh st := default [] (st !! data master)]> st)
    (Some master) P (h ++ [Some (fresh_mesh st)]) (ps ++ [P]).
Proof.
  intros (HP & Hs & Hn & Hne0 & (mesh & Hf & Hm) & Hout). unfold Mesh in *.
  assert (Hfresh : fresh_mesh st ∉ log_ids h).
  { intros Hin. apply (snapshots_in_store _ _ _ _ Hs) in Hin.
    rewrite fresh_mesh_unused in Hin. now destruct Hin. }
  assert (Hne : fresh_mesh st <> data master).
  { intros E. rewrite <- E, fresh_mesh_unused in Hf. discriminate. }
  rewrite Hf. cbn [default].
  split; [exact HP|]. split; [|split; [|split; [exact Hne0|split]]].
  - apply Forall2_app.
    + eapply snapshots_store; [|exact Hs]. intros m Hin.
      apply lookup_insert_ne. intros <-. contradiction.
    + repeat constructor; [exact HP | exact Hne0|].
      exists mesh. split; [apply lookup_insert_eq | exact Hm].
  - rewrite log_ids_app. cbn. apply NoDup_app. repeat split; try assumption.
    + intros m Hin Hin'. apply list_elem_of_singleton in Hin' as ->.
      contradiction.
    + apply NoDup_singleton.
  - exists mesh. split; [|exact Hm]. now rewrite lookup_insert_ne.
  - rewrite log_ids_app. cbn. intros Hin.
    apply elem_of_app in Hin as [Hin | Hin]; [contradiction|].
    apply list_elem_of_singleton in Hin. congruence.
Qed.

Lemma fits_evict st mo P old rest p0 ps :
  fits st mo P (old :: rest) (p0 :: ps) ->
  fits (match old with Some m => delete m st | None => st end) mo P rest ps.
Proof.
  intros (HP & Hs & Hn & Hmo).
  apply Forall2_cons_1 in Hs as [_ Hs].
  destruct old as [m|]; cbn in Hn, Hmo.
  - apply NoDup_cons in Hn as [Hm Hn].
    split; [exact HP|]. split; [|split; [exact Hn|]].
    + eapply snapshots_store; [|exact Hs]. intros m' Hin.
      apply lookup_delete_ne. intros <-. contradiction.
    + destruct mo as [master|]; [|exact Hmo].
      destruct Hmo as (Hne0 & (mesh & Hf & Hmir) & Hout).
      apply not_elem_of_cons in Hout as [Hne Hout].
      split; [exact Hne0|]. split; [|exact Hout].
      exists mesh. split; [|exact Hmir]. now rewrite lookup_delete_ne.
  - split; [exact HP|]. split; [exact Hs|]. split; [exact Hn | exact Hmo].
Qed.

Lemma fits_pop st mo P h ps e Pe :
  fits st mo P (h ++ [e]) (ps ++ [Pe]) ->
  fits st mo P h ps /\ snapshot_ok st e Pe /\
  (forall m, e = Some m ->
     (m ∉ log_ids h) /\
     (forall master, mo = Some master -> data master <> m)).
Proof.
  intros (HP & Hs & Hn & Hmo).
  apply Forall2_app_inv_l in Hs as (k1 & k2 & H1 & H2 & E).
  inversion H2 as [|? x ? k2' Hx H2' ]; subst. inversion H2'; subst.
  apply app_inj_tail in E as [-> ->].
  rewrite log_ids_app in Hn, Hmo.
  apply NoDup_app in Hn as (Hn1 & Hdisj & _).
  split; [|split; [exact Hx|]].
  - split; [exact HP|]. split; [exact H1|]. split; [exact Hn1|].
    destruct mo as [master|]; [|exact Hmo].
    destruct Hmo as (Hne0 & Hf & Hout). split; [exact Hne0|].
    split; [exact Hf|].
    intros Hin. apply Hout. apply elem_of_app. now left.
  - intros m ->. cbn in Hdisj, Hmo. split.
    + intros Hin. apply (Hdisj m Hin). apply list_elem_of_here.
    + intros master ->. destruct Hmo as (_ & _ & Hout). intros E.
      apply Hout. apply elem_of_app. right. rewrite E.
      apply list_elem_of_here.
Qed.

Lemma fits_no_structure st mo P h ps :
  fits st mo P h ps -> fits st None ∅ h ps.
Proof.
  intros (_ & Hs & Hn & _).
  split; [apply rounded_empty|]. split; [exact Hs|]. now split.
Qed.

Lemma fits_restore st master master' P h ps Pe :
  fits st (Some master) P h ps -> snapshot_ok st (Some (data master')) Pe ->
  data master' ∉ log_ids h -> data master <> data master' ->
  fits (delete (data master) st) (Some master') Pe h ps.
Proof.
  intros (HP & Hs & Hn & (_ & _ & Hout)) (HPe & Hne0 & mesh & Hf & Hmir) Hm Hne.
  split; [exact HPe|].
  split; [|split; [exact Hn|split; [exact Hne0|split; [|exact Hm]]]].
  - eapply snapshots_store; [|exact Hs]. intros m' Hin.
    apply lookup_delete_ne. intros <-. contradiction.
  - exists mesh. split; [|exact Hmir]. now rewrite lookup_delete_ne.
Qed.

(** The store grows by meshes under fresh names and the structure is a new
    object with one of them. *)
Lemma fits_new_structure st st' mo P P' h ps master mesh :
  fits st mo P h ps -> rounded P' -> P' <> ∅ ->
  (forall id, is_Some (st !! id) -> st' !! id = st !! id) ->
  st !! data master = None -> st' !! data master = Some mesh ->
  built_for mesh P' ->
  fits st' (Some master) P' h ps.
Proof.
  intros (_ & Hs & Hn & _) HP' Hne0 Hkeep Hnew Hfirst Hmir.
  split; [exact HP'|]. split; [|split; [exact Hn|split; [exact Hne0|split]]].
  - eapply snapshots_store; [|exact Hs]. intros m Hin.
    apply Hkeep. eapply snapshots_in_store; eauto.
  - exists mesh. now split.
  - intros Hin. apply (snapshots_in_store _ _ _ _ Hs) in Hin.
    rewrite Hnew in Hin. now destruct Hin.
Qed.

Lemma fits_grown_store st st' P h ps mo :
  fits st mo P h ps ->
  (forall id, is_Some (st !! id) -> st' !! id = st !! id) ->
  fits st' None ∅ h ps.
Proof.
  intros (_ & Hs & Hn & _) Hkeep.
  split; [apply rounded_empty|]. split; [|now split].
  eapply snapshots_store; [|exact Hs]. intros m Hin.
  apply Hkeep. eapply snapshots_in_store; eauto.
Qed.

Lemma fits_join st master P h ps k tile :
  fits st (Some master) P h ps -> k ∉ P ->
  round_face tile = tile_of_key k ->
  round_face (tile_of_key k) = tile_of_key k ->
  fits (<[data master :=
            default [] (<[fresh_mesh st := [tile_copy tile]]> st !! data master)
            ++ [tile_copy tile; remove_doubles]]>
          (<[fresh_mesh st := [tile_copy tile]]> st))
    (Some master) ({[k]} ∪ P) h ps.
Proof.
  intros (HP & Hs & Hn & _ & (mesh & Hf & Hmir) & Hout) Hk Ht Hkr.
  unfold Mesh in *.
  assert (Hne : fresh_mesh st <> data master).
  { intros E. rewrite <- E, fresh_mesh_unused in Hf. discriminate. }
  rewrite lookup_insert_ne by exact Hne. rewrite Hf. cbn [default].
  split; [now apply rounded_insert|].
  split; [|split; [exact Hn|split; [apply insert_nonempty|split; [|exact Hout]]]].
  - eapply snapshots_store; [|exact Hs]. intros m Hin.
    assert (is_Some (st !! m)) as Hsome by (eapply snapshots_in_store; eauto).
    rewrite !lookup_insert_ne; [reflexivity| |].
    + intros <-. rewrite fresh_mesh_unused in Hsome. now destruct Hsome.
    + intros <-. contradiction.
  - exists (mesh ++ [tile_copy tile; remove_doubles]).
    split; [apply lookup_insert_eq|]. now apply built_for_join.
Qed.

Section InStep.

Variables cos sin : Q -> Q.

Lemma store_fits (s : Session) :
  fits (meshes s) (master_object s) (placed_tiles s) (undo_history s)
    (undo_positions s) ->
  fits (meshes (store_undo_snapshot s)) (master_object (store_undo_snapshot s))
    (placed_tiles (store_undo_snapshot s)) (undo_history (store_undo_snapshot s))
    (undo_positions (store_undo_snapshot s)).
Proof.
  intros H. unfold store_undo_snapshot.
  destruct (master_object s) as [master|] eqn:Em.
  - apply fits_push in H. cbn -[Nat.ltb]. unfold Mesh in *.
    destruct (20 <? _)%nat; [|cbn; rewrite Em; exact H].
    destruct (undo_history s ++ [Some (fresh_mesh (meshes s))])
      as [|old rest] eqn:Eh.
    { destruct (undo_history s); discriminate. }
    destruct (undo_positions s ++ [placed_tiles s]) as [|p0 ps] eqn:Ep.
    { destruct (undo_positions s); discriminate. }
    apply fits_evict in H. destruct old; cbn; rewrite ?Em, ?Ep; exact H.
  - cbn. rewrite Em. now apply fits_push_none.
Qed.

Lemma key_is_rounded (s : Session) :
  round_face (tile_of_key (pos_key cos sin s)) = tile_of_key (pos_key cos sin s).
Proof. unfold pos_key. cbn. now rewrite !round6_idempotent. Qed.

Lemma place_fits (s : Session) :
  fits (meshes s) (master_object s) (placed_tiles s) (undo_history s)
    (undo_positions s) ->
  fits (meshes (snd (place_tile_at_current_position cos sin s)))
    (master_object (snd (place_tile_at_current_position cos sin s)))
    (placed_tiles (snd (place_tile_at_current_position cos sin s)))
    (undo_history (snd (place_tile_at_current_position cos sin s)))
    (undo_positions (snd (place_tile_at_current_position cos sin s))).
Proof.
  intros H. unfold place_tile_at_current_position.
  destruct (decide _) as [|Hfree]; [exact H|].
  apply store_fits in H.
  destruct (store_undo_snapshot_spec s) as ((P1 & _ & P3 & _) & Hpl & Hmo & _).
  pose proof (key_is_rounded s) as Hkr.
  assert (Ht : round_face
                 (get_green_face_world_position cos sin s,
                  rotation_euler (preview (store_undo_snapshot s)),
                  tile_size_index (store_undo_snapshot s))
               = tile_of_key (pos_key cos sin s)).
  { rewrite P1, P3. reflexivity. }
  remember (store_undo_snapshot s) as s1 eqn:E1. clear E1.
  unfold new_tile_mesh. cbn -[get_green_face_world_position pos_key].
  rewrite Hpl in *. unfold Mesh in *.
  destruct (master_object s1) as [master|] eqn:Em;
    cbn -[get_green_face_world_position pos_key]; rewrite ?Em, ?Hpl.
  - now apply fits_join.
  - pose proof H as (_ & _ & _ & He). rewrite He.
    eapply fits_new_structure; [exact H | | | | | |].
    + apply rounded_insert; [exact Hkr | apply rounded_empty].
    + apply insert_nonempty.
    + intros id Hid. apply lookup_insert_ne. intros <-.
      rewrite fresh_mesh_unused in Hid. now destruct Hid.
    + apply fresh_mesh_unused.
    + apply lookup_insert_eq.
    + now apply built_for_first.
Qed.

Lemma rebuild_fits (s : Session) :
  rounded (placed_tiles s) ->
  (exists mo P,
     fits (meshes s) mo P (undo_history s) (undo_positions s)) ->
  fits (meshes (rebuild_structure_mesh s))
    (master_object (rebuild_structure_mesh s))
    (placed_tiles (rebuild_structure_mesh s))
    (undo_history (rebuild_structure_mesh s))
    (undo_positions (rebuild_structure_mesh s)).
Proof.
  intros Hr (mo & P & H).
  destruct (rebuild_spec s) as (-> & -> & -> & _).
  destruct (rebuild_store s) as (Hkeep & Hsome).
  destruct (decide (placed_tiles s = ∅)) as [He|Hne].
  - rewrite (rebuild_of_empty s He), He.
    eapply fits_grown_store; [exact H | exact Hkeep].
  - destruct (Hsome Hne) as (master & mesh & k & -> & Hfresh & Hmesh & Ht & _).
    eapply fits_new_structure;
      [exact H | exact Hr | exact Hne | exact Hkeep | exact Hfresh | exact Hmesh
      | now apply built_for_rebuilt].
Qed.

Lemma mirror_inv_ext (s s' : Session) :
  meshes s' = meshes s -> placed_tiles s' = placed_tiles s ->
  master_object s' = master_object s ->
  undo_history s' = undo_history s -> undo_positions s' = undo_positions s ->
  mirror_inv s -> mirror_inv s'.
Proof.
  intros E0 E1 E2 E3 E4 [H1 H2]. split.
  - now apply (ledger_inv_ext s).
  - now rewrite E0, E1, E2, E3, E4.
Qed.

Lemma invoke_mirror (cursor_loc : Vector) (inverted : nat)
  (store : gmap mesh_id Mesh) : mirror_inv (invoke cursor_loc inverted store).
Proof.
  split; [apply invoke_inv|]. cbn.
  split; [apply rounded_empty|]. split; [constructor|].
  split; [constructor | reflexivity].
Qed.

Lemma place_mirror (s : Session) :
  mirror_inv s -> mirror_inv (snd (place_tile_at_current_position cos sin s)).
Proof.
  intros [H1 H2]. split; [now apply place_inv_any | now apply place_fits].
Qed.

Lemma delete_mirror (s : Session) :
  mirror_inv s -> mirror_inv (delete_tile_at_current_position cos sin s).
Proof.
  intros [H1 H2]. split; [now apply delete_inv|].
  unfold delete_tile_at_current_position.
  destruct (decide _); [|exact H2].
  apply store_fits in H2.
  remember (store_undo_snapshot s) as s1 eqn:E1. clear E1.
  apply (rebuild_fits
           (set_placed_tiles (placed_tiles s1 ∖ {[pos_key cos sin s]}) s1)).
  - apply (rounded_subseteq _ (placed_tiles s1)); [|apply H2].
    apply subseteq_difference_l. reflexivity.
  - exists (master_object s1), (placed_tiles s1). exact H2.
Qed.

Lemma undo_mirror (s : Session) :
  mirror_inv s -> mirror_inv (snd (undo_placement s)).
Proof.
  intros [H1 H2]. split; [now apply undo_inv|].
  destruct H1 as [_ Hlen]. unfold undo_placement.
  destruct (last (undo_history s)) as [lm|] eqn:El; [|exact H2].
  apply last_Some in El as [h Eh]. cbn.
  destruct (last (undo_positions s)) as [lp|] eqn:Ep.
  2:{ apply last_None in Ep. rewrite Eh, Ep, length_app in Hlen.
      cbn in Hlen. lia. }
  apply last_Some in Ep as [ps Ep].
  rewrite Eh, Ep in H2. apply fits_pop in H2 as (Hpop & Hsnap & Hm).
  destruct lm as [m|]; [destruct (master_object s) as [master|] eqn:Em|];
    cbn; rewrite ?Em, ?Eh, ?Ep, ?removelast_last.
  - destruct (Hm m eq_refl) as [Hout Hne].
    apply (fits_restore _ _ (structure m (placement master)) (placed_tiles s));
      auto.
  - exact Hpop.
  - apply (fits_no_structure _ _ _ _ _ Hpop).
Qed.

Lemma change_tile_size_mirror (direction : Z) (s : Session) :
  mirror_inv s -> mirror_inv (change_tile_size cos sin direction s).
Proof.
  intros H. unfold change_tile_size.
  destruct (_ =? _)%nat; [exact H|].
  eapply mirror_inv_ext; [..|exact H]; reflexivity.
Qed.

Lemma finish_move_mirror (precision_mode : bool) (loc : Vector) (s : Session) :
  mirror_inv s -> mirror_inv (finish_move cos sin precision_mode loc s).
Proof.
  intros H. unfold finish_move. cbn.
  destruct (auto_mode s).
  - apply place_mirror. eapply mirror_inv_ext; [..|exact H]; reflexivity.
  - eapply mirror_inv_ext; [..|exact H]; reflexivity.
Qed.

Lemma update_preview_from_mouse_mirror (ctx : Context) (e : Event)
  (s : Session) :
  mirror_inv s -> mirror_inv (update_preview_from_mouse cos sin ctx e s).
Proof.
  intros H. unfold update_preview_from_mouse.
  destruct (get_view_relative_vectors ctx) as [forward_vec right_vec].
  repeat match goal with
         | |- context [match ?o with Some _ => _ | None => _ end] =>
             destruct o as [[? ?]|]
         | |- context [match ?o with Some _ => _ | None => _ end] =>
             destruct o
         end;
    try exact H;
    repeat match goal with
           | |- mirror_inv (if ?b then _ else _) => destruct b
           end;
    try exact H;
    first [ apply place_mirror; eapply mirror_inv_ext; [..|exact H]; reflexivity
          | eapply mirror_inv_ext; [..|exact H]; reflexivity ].
Qed.

Ltac mirror_step H :=
  first
    [ exact H
    | apply place_mirror; exact H
    | apply delete_mirror; exact H
    | apply undo_mirror; exact H
    | apply finish_move_mirror; exact H
    | apply change_tile_size_mirror; exact H
    | apply update_preview_from_mouse_mirror; exact H
    | eapply mirror_inv_ext; [..|exact H]; reflexivity ].

Lemma modal_mirror (ctx : Context) (e : Event) (s : Session) :
  mirror_inv s -> mirror_inv (snd (modal cos sin ctx e s)).
Proof.
  intros H. unfold modal.
  destruct (get_view_relative_vectors ctx) as [forward_vec right_vec].
  destruct (type e), (value e); cbn [snd];
    repeat match goal with
           | |- context [match find ?f ?l with _ => _ end] =>
               destruct (find f l) as [[? ?]|]
           | |- context [if ?b then _ else _] => destruct b
           end;
    cbn [snd]; mirror_step H.
Qed.

Lemma run_events_mirror (evs : list (Context * Event)) (s : Session) :
  mirror_inv s -> mirror_inv (run_events cos sin evs s).
Proof.
  revert s. induction evs as [|[ctx e] evs IH]; intros s H; [exact H|].
  cbn. apply IH. now apply modal_mirror.
Qed.

(** X21. While the session runs, the structure is built from the ledger.
    After any events from [invoke] on that do not end the session, either
    there is no structure and no tile is placed, or the structure's
    datablock is in the store and was built from exactly one template copy
    per key of the placed-tile set: rounded to six decimals, the positions
    and rotations the copies were made for, and their sizes, are the ones the
    keys record. The same holds for every snapshot in the undo log and the
    key set logged with it. This is about the calls that built a datablock:
    the host welds coincident vertices after each join and shows a restored
    snapshot under the transform of the current structure object, so the
    faces in the scene need not match the keys one to one. *)
Theorem structure_mirrors_ledger (cursor_loc : Vector) (inverted : nat)
  (store : gmap mesh_id Mesh) (evs : list (Context * Event)) :
  stays_running cos sin evs (invoke cursor_loc inverted store) = true ->
  match master_object (session_after cos sin cursor_loc inverted store evs) with
  | Some master =>
      exists mesh,
        meshes (session_after cos sin cursor_loc inverted store evs)
          !! data master = Some mesh /\
        built_for mesh
          (placed_tiles (session_after cos sin cursor_loc inverted store evs)) /\
        length (tiles_of mesh)
        = size (placed_tiles
                  (session_after cos sin cursor_loc inverted store evs))
  | None =>
      placed_tiles (session_after cos sin cursor_loc inverted store evs) = ∅
  end /\
  Forall2
    (fun e keys =>
       forall m, e = Some m ->
         exists mesh,
           meshes (session_after cos sin cursor_loc inverted store evs) !! m
           = Some mesh /\ built_for mesh keys)
    (undo_history (session_after cos sin cursor_loc inverted store evs))
    (undo_positions (session_after cos sin cursor_loc inverted store evs)).
Proof.
  intros _. unfold session_after.
  destruct (run_events_mirror evs _ (invoke_mirror cursor_loc inverted store))
    as (_ & _ & Hs & _ & Hmo).
  split.
  - destruct (master_object _) as [master|]; [|exact Hmo].
    destruct Hmo as (_ & (mesh & Hl & Hm) & _).
    exists mesh. split; [exact Hl|]. split; [exact Hm|].
    apply Permutation_length in Hm. rewrite !length_fmap in Hm. exact Hm.
  - eapply Forall2_impl; [exact Hs|].
    intros e keys [_ He] m ->. destruct He as (_ & mesh & Hl & Hm).
    now exists mesh.
Qed.

(** X22. While the session runs, the undo log can be used. After any events
    from [invoke] on that do not end the session, the two lists of the log
    have the same length, every mesh the log names is in the store, no mesh
    is logged twice, the mesh the structure uses is in the store and not in
    the log, and an entry has no mesh exactly when the key set logged with it
    is empty. *)
Theorem undo_log_restorable (cursor_loc : Vector) (inverted : nat)
  (store : gmap mesh_id Mesh) (evs : list (Context * Event)) :
  stays_running cos sin evs (invoke cursor_loc inverted store) = true ->
  length (undo_history (session_after cos sin cursor_loc inverted store evs))
  = length (undo_positions
              (session_after cos sin cursor_loc inverted store evs)) /\
  (forall m,
     m ∈ log_ids
           (undo_history (session_after cos sin cursor_loc inverted store evs)) ->
     is_Some
       (meshes (session_after cos sin cursor_loc inverted store evs) !! m)) /\
  NoDup (log_ids
           (undo_history (session_after cos sin cursor_loc inverted store evs))) /\
  (forall master,
     master_object (session_after cos sin cursor_loc inverted store evs)
     = Some master ->
     is_Some
       (meshes (session_after cos sin cursor_loc inverted store evs)
          !! data master) /\
     data master
       ∉ log_ids
           (undo_history (session_after cos sin cursor_loc inverted store evs))) /\
  Forall2 (fun e keys => e = None <-> keys = ∅)
    (undo_history (session_after cos sin cursor_loc inverted store evs))
    (undo_positions (session_after cos sin cursor_loc inverted store evs)).
Proof.
  intros _. unfold session_after.
  destruct (run_events_mirror evs _ (invoke_mirror cursor_loc inverted store))
    as ([_ Hlen] & _ & Hs & Hn & Hmo).
  split; [exact Hlen|]. split; [|split; [exact Hn|split]].
  - intros m Hm. eapply snapshots_in_store; eauto.
  - intros master Em. rewrite Em in Hmo.
    destruct Hmo as (_ & (mesh & Hl & _) & Hout).
    split; [|exact Hout]. unfold Mesh in *. rewrite Hl. eauto.
  - eapply snapshots_empty; exact Hs.
Qed.

(** X25. While the session runs, there is a structure exactly when a tile
    is placed: after any events from [invoke] on that do not end the session,
    [master_object] is [None] if and only if the placed-tile set is empty. *)
Theorem structure_iff_tiles (cursor_loc : Vector) (inverted : nat)
  (store : gmap mesh_id Mesh) (evs : list (Context * Event)) :
  stays_running cos sin evs (invoke cursor_loc inverted store) = true ->
  master_object (session_after cos sin cursor_loc inverted store evs) = None
  <-> placed_tiles (session_after cos sin cursor_loc inverted store evs) = ∅.
Proof.
  intros _. unfold session_after.
  destruct (run_events_mirror evs _ (invoke_mirror cursor_loc inverted store))
    as (_ & _ & _ & _ & Hmo).
  destruct (master_object _) as [master|].
  - destruct Hmo as (Hne & _). split; [discriminate | contradiction].
  - now split.
Qed.

End InStep.

Lemma structure_mirrors_ledger_witness :
  stays_running cos_eighth sin_eighth place_delete_undo
    (invoke (vec 0 0 0) 0 ∅) = true /\
  Forall2
    (fun e keys =>
       forall m, e = Some m ->
         exists mesh,
           meshes (session_after cos_eighth sin_eighth (vec 0 0 0) 0 ∅
                     place_delete_undo) !! m
           = Some mesh /\ built_for mesh keys)
    (undo_history
       (session_after cos_eighth sin_eighth (vec 0 0 0) 0 ∅ place_delete_undo))
    (undo_positions
       (session_after cos_eighth sin_eighth (vec 0 0 0) 0 ∅ place_delete_undo)).
Proof.
  split; [vm_compute; reflexivity|].
  apply (structure_mirrors_ledger cos_eighth sin_eighth (vec 0 0 0) 0 ∅
           place_delete_undo).
  vm_compute; reflexivity.
Defined.

Lemma undo_log_restorable_witness :
  stays_running cos_eighth sin_eighth place_delete_undo
    (invoke (vec 0 0 0) 0 ∅) = true /\
  NoDup (log_ids
           (undo_history
              (session_after cos_eighth sin_eighth (vec 0 0 0) 0 ∅
                 place_delete_undo))).
Proof.
  split; [vm_compute; reflexivity|].
  apply (undo_log_restorable cos_eighth sin_eighth (vec 0 0 0) 0 ∅
           place_delete_undo).
  vm_compute; reflexivity.
Defined.

Lemma structure_iff_tiles_witness :
  stays_running cos_eighth sin_eighth place_delete_undo
    (invoke (vec 0 0 0) 0 ∅) = true /\
  (master_object
     (session_after cos_eighth sin_eighth (vec 0 0 0) 0 ∅ place_delete_undo)
   = None
   <-> placed_tiles
         (session_after cos_eighth sin_eighth (vec 0 0 0) 0 ∅ place_delete_undo)
       = ∅).
Proof.
  split; [vm_compute; reflexivity|].
  apply (structure_iff_tiles cos_eighth sin_eighth (vec 0 0 0) 0 ∅
           place_delete_undo).
  vm_compute; reflexivity.
Defined.
